(** * roygbiv: hit-testing, box selection, drag-move and extents

    A shallow embedding of the editor core of the roygbiv piano-roll:
    [getIntersectingEvent], [findIntersectingEvents], the
    [SelectBoxBehavior] class, [getExtents] and the [onDragMove] handler.

    JavaScript numbers are modelled as exact rationals ([Q]); the two
    infinities that [getExtents] folds from are made explicit in [number].
    Objects that the code compares or passes by reference live in a store
    ([gmap loc Event]). *)

From Stdlib Require Import QArith Qminmax Qround Qabs Qfield.
From stdpp Require Import base option list gmap.

Local Open Scope Q_scope.

(** ** Geometry *)

Module Geometry.

(** Modelled from the spec: [Vector2] (./Vector2 is not among the sources).
    A pair of numbers; [new Vector2()] is the origin and [sub] is
    componentwise. *)
Record Vector2 : Type := mkVector2 { x : Q; y : Q }.

Definition origin : Vector2 := mkVector2 0 0.

Definition sub (a b : Vector2) : Vector2 :=
  mkVector2 (x a - x b) (y a - y b).

(** Modelled from the spec: [Rect] (./Rect is not among the sources):
    [{position, size}] with half-open containment and overlap tests. *)
Record Rect : Type := mkRect { position : Vector2; size : Vector2 }.

Definition Qltb (a b : Q) : bool := negb (Qle_bool b a).

Definition containsPoint (r : Rect) (p : Vector2) : bool :=
  Qle_bool (x (position r)) (x p)
  && Qltb (x p) (x (position r) + x (size r))
  && Qle_bool (y (position r)) (y p)
  && Qltb (y p) (y (position r) + y (size r)).

Definition intersectsRect (a b : Rect) : bool :=
  Qltb (x (position a)) (x (position b) + x (size b))
  && Qltb (x (position b)) (x (position a) + x (size a))
  && Qltb (y (position a)) (y (position b) + y (size b))
  && Qltb (y (position b)) (y (position a) + y (size a)).

End Geometry.

(** ** Hit-testing over the drawn-element list *)

Section HitTest.

(** The drawn-element list pairs a rectangle with the object it was drawn
    for.  The two loops only call [rect.containsPoint] and
    [rect.intersectsRect]; they are taken as they come. *)
Context {Rect Point Obj : Type}.
Variable containsPoint : Rect → Point → bool.
Variable intersectsRect : Rect → Rect → bool.

Record DrawnElement : Type := mkDrawn { rect : Rect; object : Obj }.

(** [for (var i = drawnElements.length - 1; i >= 0; i--)]: the argument
    [n] is [i + 1], so the loop is entered with [length drawnElements]
    and stops at [0]. *)
Fixpoint getIntersectingEvent_loop
    (point : Point) (drawnElements : list DrawnElement) (n : nat)
    : option Obj :=
  match n with
  | O => None
  | S i =>
      match drawnElements !! i with
      | Some drawnEl =>
          if containsPoint (rect drawnEl) point
          then Some (object drawnEl)
          else getIntersectingEvent_loop point drawnElements i
      | None => getIntersectingEvent_loop point drawnElements i
      end
  end.

Definition getIntersectingEvent
    (point : Point) (drawnElements : list DrawnElement) : option Obj :=
  getIntersectingEvent_loop point drawnElements (length drawnElements).

(** The accumulator is the array [intersecting]; [push] appends. *)
Fixpoint findIntersectingEvents_loop
    (r : Rect) (drawnElements : list DrawnElement) (n : nat)
    (intersecting : list Obj) : list Obj :=
  match n with
  | O => intersecting
  | S i =>
      match drawnElements !! i with
      | Some drawnEl =>
          if intersectsRect (rect drawnEl) r
          then findIntersectingEvents_loop r drawnElements i
                 (intersecting ++ [object drawnEl])
          else findIntersectingEvents_loop r drawnElements i intersecting
      | None => findIntersectingEvents_loop r drawnElements i intersecting
      end
  end.

Definition findIntersectingEvents
    (r : Rect) (drawnElements : list DrawnElement) : list Obj :=
  findIntersectingEvents_loop r drawnElements (length drawnElements) [].

End HitTest.

Arguments DrawnElement : clear implicits.
Arguments mkDrawn {Rect Obj} _ _.

(** ** The box-select behaviour *)

Module SelectBox.
Import Geometry.

(** Modelled from the spec: [getSelectionBox] (./selection is not among
    the sources): the axis-aligned rectangle between the anchor and the
    current point, whatever the drag direction. *)
Definition getSelectionBox (a b : Vector2) : Rect :=
  mkRect (mkVector2 (Qmin (x a) (x b)) (Qmin (y a) (y b)))
         (mkVector2 (Qabs (x b - x a)) (Qabs (y b - y a))).

(** The instance fields the handlers read or write.  [enabled] has no
    initialiser in the class, so it starts out [undefined] ([None]). *)
Record SelectBoxBehavior : Type := mkBehavior {
  selectionStart : Vector2;
  selectionEnd : Vector2;
  selecting : bool;
  enabled : option bool
}.

(** The behaviour with its two collaborators: what [selectionBox]
    currently renders ([None] for [render(null)]) and the rectangles
    [onSelectRect] has been called with, oldest first. *)
Record World : Type := mkWorld {
  self : SelectBoxBehavior;
  selectionBox : option Rect;
  onSelectRect : list Rect
}.

Definition new_SelectBoxBehavior : SelectBoxBehavior :=
  mkBehavior origin origin false None.

Definition initial : World := mkWorld new_SelectBoxBehavior None [].

(** JavaScript truthiness of [this.enabled]. *)
Definition truthy (v : option bool) : bool :=
  match v with Some true => true | _ => false end.

(** [this.enabled === enabled], for a boolean argument. *)
Definition strict_eq (v : option bool) (b : bool) : bool :=
  match v with Some c => Bool.eqb c b | None => false end.

Definition setEnabled (b : bool) (w : World) : World :=
  if strict_eq (enabled (self w)) b then w
  else
    let w1 := if negb b
              then mkWorld (self w) None (onSelectRect w)
              else w in
    mkWorld
      (mkBehavior (selectionStart (self w1)) (selectionEnd (self w1))
                  (selecting (self w1)) (Some b))
      (selectionBox w1) (onSelectRect w1).

Definition onMouseDown (pos : Vector2) (w : World) : World :=
  if negb (truthy (enabled (self w))) then w
  else
    mkWorld (mkBehavior pos pos true (enabled (self w)))
            (selectionBox w) (onSelectRect w).

Definition onMouseUp (pos : Vector2) (w : World) : World :=
  if negb (truthy (enabled (self w))) then w
  else
    let selectionBoxRect :=
      getSelectionBox (selectionStart (self w)) (selectionEnd (self w)) in
    mkWorld
      (mkBehavior (selectionStart (self w)) (selectionEnd (self w))
                  false (enabled (self w)))
      None
      (onSelectRect w ++ [selectionBoxRect]).

Definition onMouseOut (w : World) : World :=
  if negb (truthy (enabled (self w))) then w
  else
    mkWorld
      (mkBehavior (selectionStart (self w)) (selectionEnd (self w))
                  false (enabled (self w)))
      None (onSelectRect w).

Definition onMouseMove (pos : Vector2) (w : World) : World :=
  if negb (selecting (self w)) then w
  else
    let selectionBoxRect := getSelectionBox (selectionStart (self w)) pos in
    mkWorld
      (mkBehavior (selectionStart (self w)) pos
                  (selecting (self w)) (enabled (self w)))
      (Some selectionBoxRect) (onSelectRect w).

(** What reaches the behaviour: the [enabled] prop changing, and the four
    canvas listeners, each with the pointer position of its event. *)
Inductive input : Type :=
| SetEnabled (b : bool)
| MouseDown (pos : Vector2)
| MouseUp (pos : Vector2)
| MouseOut
| MouseMove (pos : Vector2).

Definition step (w : World) (i : input) : World :=
  match i with
  | SetEnabled b => setEnabled b w
  | MouseDown pos => onMouseDown pos w
  | MouseUp pos => onMouseUp pos w
  | MouseOut => onMouseOut w
  | MouseMove pos => onMouseMove pos w
  end.

Definition run (w : World) (inputs : list input) : World :=
  fold_left step inputs w.

(** The pointer events, as opposed to the prop change. *)
Definition is_mouse (i : input) : bool :=
  match i with SetEnabled _ => false | _ => true end.

End SelectBox.

(** ** Numbers with infinities, as [getExtents] folds them *)

Module Number.

Inductive number : Type :=
| Fin (q : Q)
| PosInf
| NegInf
| NaN.

Definition Math_min (a b : number) : number :=
  match a, b with
  | NaN, _ => NaN
  | _, NaN => NaN
  | NegInf, _ => NegInf
  | _, NegInf => NegInf
  | PosInf, v => v
  | v, PosInf => v
  | Fin p, Fin q => Fin (Qmin p q)
  end.

Definition Math_max (a b : number) : number :=
  match a, b with
  | NaN, _ => NaN
  | _, NaN => NaN
  | PosInf, _ => PosInf
  | _, PosInf => PosInf
  | NegInf, v => v
  | v, NegInf => v
  | Fin p, Fin q => Fin (Qmax p q)
  end.

Definition minus (a b : number) : number :=
  match a, b with
  | NaN, _ => NaN
  | _, NaN => NaN
  | Fin p, Fin q => Fin (p - q)
  | PosInf, PosInf => NaN
  | NegInf, NegInf => NaN
  | PosInf, _ => PosInf
  | NegInf, _ => NegInf
  | Fin _, PosInf => NegInf
  | Fin _, NegInf => PosInf
  end.

(** [a <= b] as JavaScript evaluates it: false as soon as a [NaN] is
    involved. *)
Definition le (a b : number) : Prop :=
  match a, b with
  | NaN, _ => False
  | _, NaN => False
  | NegInf, _ => True
  | _, PosInf => True
  | Fin p, Fin q => p <= q
  | _, _ => False
  end.

End Number.

(** ** The viewport *)

Module Viewport.
Import Geometry.

(** Modelled from the spec: the viewport (./viewport is not among the
    sources).  [offset] is the world point at the screen origin, [zoom]
    the per-axis scale; positions go to the screen as
    [(p - offset) * zoom], sizes as [v * zoom], and the [FromScreen]
    operations are their inverses. *)
Record ViewportState : Type := mkViewportState {
  offset : Vector2;
  zoom : Vector2
}.

(** Modelled from the spec: [positionToScreen], world to screen,
    [(worldPoint - offset) * zoom] componentwise. *)
Definition positionToScreen (s : ViewportState) (p : Vector2) : Vector2 :=
  mkVector2 ((x p - x (offset s)) * x (zoom s))
            ((y p - y (offset s)) * y (zoom s)).

(** Modelled from the spec: [sizeToScreen], [worldSize * zoom], without
    the offset. *)
Definition sizeToScreen (s : ViewportState) (v : Vector2) : Vector2 :=
  mkVector2 (x v * x (zoom s)) (y v * y (zoom s)).

(** Modelled from the spec: [positionFromScreen], screen to world, the
    inverse of [positionToScreen]: divide by the zoom, then add the
    offset. *)
Definition positionFromScreen (s : ViewportState) (p : Vector2) : Vector2 :=
  mkVector2 (x p / x (zoom s) + x (offset s))
            (y p / y (zoom s) + y (offset s)).

(** Modelled from the spec: [sizeFromScreen], the inverse of
    [sizeToScreen]. *)
Definition sizeFromScreen (s : ViewportState) (v : Vector2) : Vector2 :=
  mkVector2 (x v / x (zoom s)) (y v / y (zoom s)).

(** Modelled from the spec: [sizeXFromScreen] and [sizeYFromScreen], the
    single-axis inverses that the drag handler calls. *)
Definition sizeXFromScreen (s : ViewportState) (dx : Q) : Q :=
  dx / x (zoom s).

Definition sizeYFromScreen (s : ViewportState) (dy : Q) : Q :=
  dy / y (zoom s).

(** Two points are the same point when their coordinates are the same
    rationals. *)
Definition Veq (a b : Vector2) : Prop := x a == x b /\ y a == y b.

End Viewport.

(** ** The quantized scale mapper *)

Module Scale.

(** Modelled from the spec: [scaleDiscreteQuantized] (./utils is not
    among the sources).  A two-point linear fit between a continuous
    domain and a discrete range; going to the range snaps to a multiple
    of [stepSize] with the [round] policy, going to the domain does not
    snap.  The alias names an axis and nothing more. *)
Record QuantizedScale : Type := mkScale {
  domainMin : Q;
  domainMax : Q;
  rangeMin : Q;
  rangeMax : Q;
  stepSize : Q;
  round : Q → Q
}.

Inductive axis : Type := Domain | Range.

(** The line through [(a0, b0)] and [(a1, b1)], at [v]. *)
Definition linear (a0 a1 b0 b1 v : Q) : Q :=
  b0 + (v - a0) * (b1 - b0) / (a1 - a0).

(** Modelled from the spec: [to(targetAxisAlias, value)]. *)
Definition to (s : QuantizedScale) (target : axis) (v : Q) : Q :=
  match target with
  | Range =>
      round s (linear (domainMin s) (domainMax s) (rangeMin s) (rangeMax s) v
               / stepSize s)
      * stepSize s
  | Domain =>
      linear (rangeMin s) (rangeMax s) (domainMin s) (domainMax s) v
  end.

(** [Math.round]: the nearest integer, halves going up. *)
Definition Math_round (v : Q) : Q := inject_Z (Qfloor (v + (1 # 2))).

End Scale.

(** ** The application: events, extents and the drag-move handler *)

Module App.
Import Geometry Viewport Scale.

Definition TIMELINE_ROW_HEIGHT : Q := 20.
Definition QUARTER_NOTE_WIDTH : Q := 10.

(** Modelled from the spec: [range] (./utils is not among the sources);
    [range(7)] is the seven scale degrees [0 .. 6]. *)
Definition range (n : nat) : list Q :=
  map (fun i => inject_Z (Z.of_nat i)) (seq 0 n).

Definition scaleDegrees : list Q := range 7.

(** An event object: [{degree, start, duration, id}].  The fields are
    finite numbers: the component builds its events from literals and
    from sums with rounded deltas. *)
Record Event : Type := mkEvent {
  id : Z;
  degree : Q;
  start : Q;
  duration : Q
}.

Definition initialEvents : list Event :=
  [ mkEvent 0 0 0 1; mkEvent 1 3 4 1; mkEvent 2 5 5 2; mkEvent 3 6 6 3 ].

(** *** getExtents *)

Module Extents.
Import Number.
Record t : Type := mk {
  start : number;
  end_ : number;
  size : number;
  minDegree : number;
  maxDegree : number
}.
End Extents.

(** [scaleDegrees.length - 1] *)
Definition lastDegree : Q :=
  inject_Z (Z.of_nat (length scaleDegrees)) - 1.

(** [events.reduce(f, init)] is [fold_left f events init]. *)
Definition getExtents (events : list Event) : Extents.t :=
  if Nat.eqb (length events) 0 then
    Extents.mk (Number.Fin 0) (Number.Fin 0) (Number.Fin 0)
               (Number.Fin 0) (Number.Fin lastDegree)
  else
    let minDegree :=
      fold_left (fun acc ev => Number.Math_min acc (Number.Fin (degree ev)))
                events (Number.Fin 0) in
    let maxDegree :=
      fold_left (fun acc ev => Number.Math_max acc (Number.Fin (degree ev)))
                events (Number.Fin lastDegree) in
    let start :=
      fold_left (fun acc ev => Number.Math_min acc (Number.Fin (start ev)))
                events Number.PosInf in
    let end_ :=
      fold_left
        (fun acc ev =>
           Number.Math_max acc (Number.Fin (App.start ev + duration ev)))
        events Number.NegInf in
    Extents.mk start end_ (Number.minus end_ start) minDegree maxDegree.

(** *** The two quantizers of the component *)

(** pixels (unzoomed) to scale degrees *)
Definition quantizerY : QuantizedScale :=
  mkScale 0 (lastDegree * TIMELINE_ROW_HEIGHT)
          (nth 0 scaleDegrees 0)
          (nth (length scaleDegrees - 1) scaleDegrees 0)
          1 Math_round.

(** pixels (unzoomed) to quarter notes *)
Definition quantizerX : QuantizedScale :=
  mkScale 0 QUARTER_NOTE_WIDTH 0 1 1 Math_round.

(** *** Event objects and their identity *)

(** The handler returns some event objects as they are and builds new
    ones for the others; objects are cells of a store and the [events]
    state is a list of references into it. *)
Definition loc : Type := positive.

Definition alloc (ev : Event) (σ : gmap loc Event)
    : loc * gmap loc Event :=
  let l := fresh (dom σ) in (l, <[l := ev]> σ).

(** [new Map(draggedEvents.map((ev) => [ev.id, ev]))]: the entries are
    set in order, so a later entry with the same key replaces an earlier
    one. *)
Definition entries (σ : gmap loc Event) (draggedEvents : list loc)
    : list (Z * loc) :=
  omap (fun l => match σ !! l with
                 | Some ev => Some (id ev, l)
                 | None => None
                 end) draggedEvents.

Definition new_Map (es : list (Z * loc)) : gmap Z loc :=
  fold_left (fun m e => <[e.1 := e.2]> m) es ∅.

(** [events.map(f)], with the store threaded through the calls of [f]. *)
Fixpoint Array_map (f : loc → gmap loc Event → loc * gmap loc Event)
    (events : list loc) (σ : gmap loc Event)
    : list loc * gmap loc Event :=
  match events with
  | [] => ([], σ)
  | l :: rest =>
      let '(l', σ1) := f l σ in
      let '(rest', σ2) := Array_map f rest σ1 in
      (l' :: rest', σ2)
  end.

(** [pos] is [{from, to}]. *)
Record DragPos : Type := mkDragPos { from : Vector2; to_ : Vector2 }.

Section OnDragMove.
(** The values the callback closes over. *)
Variable viewport : ViewportState.
Variable quantizerX quantizerY : QuantizedScale.

(** [quantizerX.to('quarterNotes', viewport.sizeXFromScreen(delta.x))] *)
Definition deltaXQuantized (delta : Vector2) : Q :=
  to quantizerX Range (sizeXFromScreen viewport (x delta)).

(** [quantizerY.to('scaleDegrees', viewport.sizeYFromScreen(delta.y))] *)
Definition deltaYQuantized (delta : Vector2) : Q :=
  to quantizerY Range (sizeYFromScreen viewport (y delta)).

(** The body of the [events.map] callback.  A reference that is not in
    the store cannot occur in the program; it is handed back as is. *)
Definition onDragMove_callback (delta : Vector2)
    (draggedEventsMap : gmap Z loc)
    (l : loc) (σ : gmap loc Event) : loc * gmap loc Event :=
  match σ !! l with
  | None => (l, σ)
  | Some ev =>
      match draggedEventsMap !! id ev with
      | Some lb =>
          match σ !! lb with
          | Some eventBeforeDrag =>
              alloc (mkEvent (id ev)
                             (degree eventBeforeDrag + deltaYQuantized delta)
                             (start eventBeforeDrag + deltaXQuantized delta)
                             (duration ev)) σ
          | None => (l, σ)
          end
      | None => (l, σ)
      end
  end.

(** [const delta = pos.to.clone().sub(pos.from)] *)
Definition delta_of (pos : DragPos) : Vector2 := sub (to_ pos) (from pos).

(** [onDragMove(draggedEvents, pos)] followed by the [setEvents]
    update it requests, on the current [events] state. *)
Definition onDragMove (draggedEvents : list loc) (pos : DragPos)
    (events : list loc) (σ : gmap loc Event)
    : list loc * gmap loc Event :=
  let delta := delta_of pos in
  let draggedEventsMap := new_Map (entries σ draggedEvents) in
  Array_map (onDragMove_callback delta draggedEventsMap) events σ.

End OnDragMove.

(** The event objects a list of references denotes. *)
Definition deref (σ : gmap loc Event) (events : list loc)
    : list (option Event) :=
  map (fun l => σ !! l) events.

End App.

(** ** Concrete scenes for the examples *)

Module Scenes.
Import Geometry Viewport Scale App.

(** Two overlapping rectangles, the second drawn over the first. *)
Definition overlapping : list (DrawnElement Rect nat) :=
  [ mkDrawn (mkRect (mkVector2 0 0) (mkVector2 10 10)) 1%nat;
    mkDrawn (mkRect (mkVector2 5 5) (mkVector2 10 10)) 2%nat ].

(** Three unit squares in a row, at x = 0, 5 and 10. *)
Definition row : list (DrawnElement Rect nat) :=
  [ mkDrawn (mkRect (mkVector2 0 0) (mkVector2 1 1)) 0%nat;
    mkDrawn (mkRect (mkVector2 5 0) (mkVector2 1 1)) 1%nat;
    mkDrawn (mkRect (mkVector2 10 0) (mkVector2 1 1)) 2%nat ].

(** The selection rectangle over x in [0, 6]. *)
Definition leftBox : Rect := mkRect (mkVector2 0 0) (mkVector2 6 1).

(** A gesture in progress: the pointer went down at (1,1) and moved to
    (5,5) while the behaviour was enabled. *)
Definition dragging : SelectBox.World :=
  SelectBox.run SelectBox.initial
    [ SelectBox.SetEnabled true;
      SelectBox.MouseDown (mkVector2 1 1);
      SelectBox.MouseMove (mkVector2 5 5) ].

(** No pan, zoom 1 on both axes. *)
Definition unitViewport : ViewportState :=
  mkViewportState origin (mkVector2 1 1).

(** An event at start 4, degree 5, and a second one that is not
    dragged. *)
Definition theEvent : Event := mkEvent 0 5 4 1.
Definition otherEvent : Event := mkEvent 1 3 2 1.

Definition store0 : gmap loc Event :=
  {[ 1%positive := theEvent; 2%positive := otherEvent ]}.

Definition events0 : list loc := [1%positive; 2%positive].

(** A drag of [dx] screen pixels along x. *)
Definition dragX (dx : Q) : DragPos :=
  mkDragPos (mkVector2 100 50) (mkVector2 (100 + dx) 50).

(** The state of [events] after dragging the first event by [dx]. *)
Definition afterDragX (dx : Q) : list loc * gmap loc Event :=
  onDragMove unitViewport quantizerX quantizerY [1%positive] (dragX dx)
             events0 store0.

(** A scale that maps a value to itself: what the drag handler would
    be given if there were no quantization. *)
Definition identityScale : QuantizedScale := mkScale 0 1 0 1 1 (fun v => v).

End Scenes.

(** ** The tooltip *)

Module Tooltip.
Import Geometry.

Definition TOOLTIP_OFFSET : Q := 8.

Section OnMouseMove.
Context {Rect Obj : Type}.
Variable containsPoint : Rect → Vector2 → bool.

(** [getEventAtPos], the prop the component is given:
    [(pos) => getIntersectingEvent(pos, drawnElementsRef.current)]. *)
Definition getEventAtPos (drawnElements : list (DrawnElement Rect Obj))
    (pos : Vector2) : option Obj :=
  getIntersectingEvent containsPoint pos drawnElements.

(** What [onMouseMove] hands to [tooltip.render]: [None] for [null],
    otherwise the translation of the box and the object it prints.  The
    objects are event objects, so [intersecting ?] tests for [null]. *)
Definition onMouseMove (drawnElements : list (DrawnElement Rect Obj))
    (mousePos : Vector2) : option (Vector2 * Obj) :=
  match getEventAtPos drawnElements mousePos with
  | Some intersecting =>
      Some (mkVector2 (x mousePos + TOOLTIP_OFFSET)
                      (y mousePos + TOOLTIP_OFFSET),
            intersecting)
  | None => None
  end.

End OnMouseMove.

End Tooltip.

(** ** The selection made by a box *)

Module Selection.
Import App.

Section OnSelectRect.
Context {Rect : Type}.
Variable intersectsRect : Rect → Rect → bool.

(** [onSelectRect] of the component: the new selection is
    [new Set(intersecting.map((ev) => ev.id))].  The rendered rectangles
    carry the event they were drawn for; only its [id] is read. *)
Definition onSelectRect (selectBoxRect : Rect)
    (renderedRects : list (DrawnElement Rect Event)) : gset Z :=
  let intersecting :=
    findIntersectingEvents intersectsRect selectBoxRect renderedRects in
  list_to_set (map id intersecting).

End OnSelectRect.

End Selection.

(** ** Gestures on the box-select behaviour *)

Module Gesture.
Import Geometry SelectBox.

Definition is_mouseUp (i : input) : bool :=
  match i with MouseUp _ => true | _ => false end.

(** Pointer down at [a], moves through [ps], up at [q]. *)
Definition drag (a : Vector2) (ps : list Vector2) (q : Vector2)
    : list input :=
  MouseDown a :: map MouseMove ps ++ [MouseUp q].

End Gesture.

(** * Properties *)

(** ** Point and box hit-testing *)

Section HitTestFacts.

Context {Rect Point Obj : Type}.
Variable containsPoint : Rect → Point → bool.
Variable intersectsRect : Rect → Rect → bool.

Local Abbreviation Drawn := (DrawnElement Rect Obj).

(** The loop went over index [n] without stopping, and [IH] speaks of the
    indices below [n]: an index [j] in range is [n] itself or below. *)
Ltac passed_over j n IH :=
  destruct (decide (j = n)) as [->|?];
  [congruence | apply (IH j); [lia | done]].

(** What the point loop has established when it was entered at [n]:
    either it stopped at the highest index below [n] whose rectangle
    contains the point, or no index below [n] has one. *)
Lemma getIntersectingEvent_loop_spec (point : Point) (l : list Drawn) n :
  match getIntersectingEvent_loop containsPoint point l n with
  | Some o =>
      ∃ i el, (i < n)%nat ∧ l !! i = Some el
              ∧ containsPoint (rect el) point = true ∧ o = object el
              ∧ ∀ j el', (i < j < n)%nat → l !! j = Some el' →
                         containsPoint (rect el') point = false
  | None =>
      ∀ j el', (j < n)%nat → l !! j = Some el' →
               containsPoint (rect el') point = false
  end.
Proof.
  induction n as [|n IH]; simpl.
  - intros j el' Hj. lia.
  - destruct (l !! n) as [el|] eqn:Hn;
      [destruct (containsPoint (rect el) point) eqn:Hc|].
    { exists n, el. repeat split; try done; lia. }
    all: destruct (getIntersectingEvent_loop containsPoint point l n).
    all: try (destruct IH as (i & el0 & Hi & Hl & Hc0 & Ho & IH);
              exists i, el0; repeat split; try done; try lia).
    all: intros j el' Hj Hl'; passed_over j n IH.
Qed.

(** C1. Point hit-testing returns the object of the topmost rectangle
    containing the point -- the element of highest index whose rect
    contains it -- and returns null ([None]) when no drawn rectangle
    contains the point. *)
Theorem getIntersectingEvent_topmost (point : Point) (l : list Drawn) :
  (∀ i el,
      l !! i = Some el →
      containsPoint (rect el) point = true →
      (∀ j el', (i < j)%nat → l !! j = Some el' →
                containsPoint (rect el') point = false) →
      getIntersectingEvent containsPoint point l = Some (object el))
  ∧ ((∀ el, el ∈ l → containsPoint (rect el) point = false) →
     getIntersectingEvent containsPoint point l = None).
Proof.
  unfold getIntersectingEvent.
  pose proof (getIntersectingEvent_loop_spec point l (length l)) as Hspec.
  split.
  - intros i el Hl Hc Htop.
    pose proof (lookup_lt_Some _ _ _ Hl) as Hlt.
    destruct (getIntersectingEvent_loop containsPoint point l (length l))
      as [o|].
    + destruct Hspec as (i' & el0 & Hi' & Hl0 & Hc0 & -> & Habove).
      destruct (Nat.lt_trichotomy i' i) as [Hlt'|[->|Hgt]].
      * rewrite (Habove i el) in Hc; [done | lia | done].
      * congruence.
      * rewrite (Htop i' el0) in Hc0; done.
    + rewrite (Hspec i el) in Hc; done.
  - intros Hnone.
    destruct (getIntersectingEvent_loop containsPoint point l (length l))
      as [o|]; [|done].
    destruct Hspec as (i' & el0 & Hi' & Hl0 & Hc0 & _).
    rewrite Hnone in Hc0; [done|].
    apply list_elem_of_lookup. eauto.
Qed.

(** The box loop, entered at [n] with the array [acc], appends the objects
    of the intersecting elements below [n], highest index first. *)
Lemma findIntersectingEvents_loop_spec (r : Rect) (l : list Drawn) n acc :
  findIntersectingEvents_loop intersectsRect r l n acc
  = acc ++ map object
             (List.filter (fun el => intersectsRect (rect el) r)
                          (rev (take n l))).
Proof.
  revert acc.
  induction n as [|n IH]; intros acc; cbn [findIntersectingEvents_loop].
  - by rewrite take_0, app_nil_r.
  - destruct (l !! n) as [el|] eqn:Hn.
    + rewrite (take_S_r _ _ _ Hn), rev_unit. simpl.
      destruct (intersectsRect (rect el) r); rewrite IH; [|done].
      simpl. by rewrite <- app_assoc.
    + rewrite IH. apply lookup_ge_None in Hn.
      rewrite !take_ge; [done | lia | lia].
Qed.

Lemma findIntersectingEvents_filter (r : Rect) (l : list Drawn) :
  findIntersectingEvents intersectsRect r l
  = map object
      (List.filter (fun el => intersectsRect (rect el) r) (rev l)).
Proof.
  unfold findIntersectingEvents.
  rewrite findIntersectingEvents_loop_spec. simpl.
  by rewrite firstn_all.
Qed.

Lemma NoDup_map_filter {A B} (f : A → B) (p : A → bool) (l : list A) :
  NoDup (map f l) → NoDup (map f (List.filter p l)).
Proof.
  induction l as [|a l IH]; simpl; intros Hnd; [done|].
  apply NoDup_cons in Hnd as [Hnotin Hnd].
  destruct (p a); simpl; [|by apply IH].
  apply NoDup_cons. split; [|by apply IH].
  intros Hin. apply Hnotin.
  apply list_elem_of_fmap in Hin as (b & -> & Hb).
  apply list_elem_of_fmap. exists b. split; [done|].
  apply list_elem_of_In in Hb. apply filter_In in Hb as [Hb _].
  by apply list_elem_of_In.
Qed.

(** C2. With pairwise-distinct objects, box hit-testing returns exactly
    the objects whose rects intersect the query rectangle: an element's
    object is in the result if and only if its rect intersects, every
    member of the result is the object of a drawn element, and no object
    appears twice. *)
Theorem findIntersectingEvents_exact (r : Rect) (l : list Drawn) :
  NoDup (map object l) →
  (∀ el, el ∈ l →
         (object el ∈ findIntersectingEvents intersectsRect r l
          ↔ intersectsRect (rect el) r = true))
  ∧ (∀ o, o ∈ findIntersectingEvents intersectsRect r l →
          ∃ el, el ∈ l ∧ object el = o
                ∧ intersectsRect (rect el) r = true)
  ∧ NoDup (findIntersectingEvents intersectsRect r l).
Proof.
  intros Hnd. rewrite findIntersectingEvents_filter.
  assert (Hmem : ∀ o,
    o ∈ map object
          (List.filter (fun el => intersectsRect (rect el) r) (rev l))
    → ∃ el, el ∈ l ∧ object el = o ∧ intersectsRect (rect el) r = true).
  { intros o Ho. apply list_elem_of_fmap in Ho as (el & -> & Hel).
    apply list_elem_of_In in Hel. apply filter_In in Hel as [Hel Hi].
    exists el. repeat split; [|done].
    apply list_elem_of_In. by apply in_rev. }
  split; [|split].
  - intros el Hel. split.
    + intros Ho. destruct (Hmem _ Ho) as (el' & Hel' & Heq & Hi).
      apply list_elem_of_lookup in Hel as [i Hi1].
      apply list_elem_of_lookup in Hel' as [j Hj1].
      assert (i = j) as ->.
      { eapply NoDup_lookup; [exact Hnd | |].
        - rewrite list_lookup_fmap, Hi1. reflexivity.
        - rewrite list_lookup_fmap, Hj1. simpl. by rewrite Heq. }
      congruence.
    + intros Hi. apply list_elem_of_fmap. exists el. split; [done|].
      apply list_elem_of_In. apply filter_In. split; [|done].
      apply in_rev. rewrite rev_involutive. by apply list_elem_of_In.
  - exact Hmem.
  - apply NoDup_map_filter.
    rewrite map_rev.
    by apply NoDup_ListNoDup, NoDup_rev, NoDup_ListNoDup.
Qed.

End HitTestFacts.

(** ** Hit-testing on concrete scenes *)

Module HitTestScenes.

(** The three ways in which a point meets two overlapping rectangles. *)
Example getIntersectingEvent_overlapping :
  getIntersectingEvent Geometry.containsPoint
    (Geometry.mkVector2 7 7) Scenes.overlapping = Some 2%nat
  ∧ getIntersectingEvent Geometry.containsPoint
      (Geometry.mkVector2 2 2) Scenes.overlapping = Some 1%nat
  ∧ getIntersectingEvent Geometry.containsPoint
      (Geometry.mkVector2 15 15) Scenes.overlapping = None.
Proof. repeat split. Qed.

Lemma getIntersectingEvent_topmost_witness :
  getIntersectingEvent Geometry.containsPoint
    (Geometry.mkVector2 7 7) Scenes.overlapping = Some 2%nat
  ∧ getIntersectingEvent Geometry.containsPoint
      (Geometry.mkVector2 20 20) Scenes.overlapping = None.
Proof.
  split.
  - apply (proj1 (getIntersectingEvent_topmost Geometry.containsPoint
                    (Geometry.mkVector2 7 7) Scenes.overlapping)
             1%nat
             (mkDrawn (Geometry.mkRect (Geometry.mkVector2 5 5)
                                       (Geometry.mkVector2 10 10)) 2%nat)).
    + reflexivity.
    + reflexivity.
    + intros [|[|j]] el' Hj Hl; [lia | lia | discriminate Hl].
  - apply (proj2 (getIntersectingEvent_topmost Geometry.containsPoint
                    (Geometry.mkVector2 20 20) Scenes.overlapping)).
    intros el Hel.
    apply elem_of_cons in Hel as [->|Hel]; [reflexivity|].
    apply elem_of_cons in Hel as [->|Hel]; [reflexivity|].
    by apply elem_of_nil in Hel.
Defined.

(** The box-select scenario: of three unit squares at x = 0, 5, 10, a
    box over x in [0, 6] selects the first two. *)
Example findIntersectingEvents_row :
  findIntersectingEvents Geometry.intersectsRect Scenes.leftBox Scenes.row
  = [1%nat; 0%nat].
Proof. reflexivity. Qed.

Lemma findIntersectingEvents_exact_witness :
  (0%nat ∈ findIntersectingEvents Geometry.intersectsRect
             Scenes.leftBox Scenes.row
   ∧ 2%nat ∉ findIntersectingEvents Geometry.intersectsRect
               Scenes.leftBox Scenes.row)
  ∧ NoDup (findIntersectingEvents Geometry.intersectsRect
             Scenes.leftBox Scenes.row).
Proof.
  assert (Hnd : NoDup (map object Scenes.row)).
  { apply (bool_decide_unpack _). reflexivity. }
  destruct (findIntersectingEvents_exact Geometry.intersectsRect
              Scenes.leftBox Scenes.row Hnd) as (Hiff & _ & Hno).
  split; [split|exact Hno].
  - apply (Hiff (mkDrawn (Geometry.mkRect (Geometry.mkVector2 0 0)
                                          (Geometry.mkVector2 1 1)) 0%nat)).
    + apply list_elem_of_here.
    + reflexivity.
  - intros Hin.
    apply (Hiff (mkDrawn (Geometry.mkRect (Geometry.mkVector2 10 0)
                                          (Geometry.mkVector2 1 1)) 2%nat))
      in Hin.
    + discriminate Hin.
    + do 2 apply list_elem_of_further. apply list_elem_of_here.
Defined.

End HitTestScenes.

(** ** The box-select behaviour *)

Module SelectBoxFacts.
Import Geometry SelectBox Scenes.

Example dragging_state :
  selecting (self dragging) = true
  ∧ enabled (self dragging) = Some true
  ∧ selectionBox dragging
    = Some (getSelectionBox (mkVector2 1 1) (mkVector2 5 5))
  ∧ onSelectRect dragging = [].
Proof. repeat split. Qed.

Example complete_gesture_reports :
  onSelectRect (run dragging [MouseUp (mkVector2 5 5)])
  = [getSelectionBox (mkVector2 1 1) (mkVector2 5 5)].
Proof. reflexivity. Qed.

(** While the behaviour is not enabled a pointer event neither enables it
    nor calls [onSelectRect]. *)
Lemma disabled_step w i :
  truthy (enabled (self w)) = false → is_mouse i = true →
  truthy (enabled (self (step w i))) = false
  ∧ onSelectRect (step w i) = onSelectRect w.
Proof.
  intros Hdis Hmouse. destruct i as [b|pos|pos| |pos]; simpl in *;
    try discriminate.
  - unfold onMouseDown. by rewrite Hdis.
  - unfold onMouseUp. by rewrite Hdis.
  - unfold onMouseOut. by rewrite Hdis.
  - unfold onMouseMove. by destruct (selecting (self w)).
Qed.

Lemma disabled_run inputs : ∀ w,
  truthy (enabled (self w)) = false →
  Forall (fun i => is_mouse i = true) inputs →
  onSelectRect (run w inputs) = onSelectRect w.
Proof.
  induction inputs as [|i inputs IH]; intros w Hdis Hall; [done|].
  apply Forall_cons in Hall as [Hi Hall].
  destruct (disabled_step w i Hdis Hi) as [Hdis' Hsame].
  simpl. rewrite (IH _ Hdis' Hall). exact Hsame.
Qed.

(** Enabled, a mouse-up reports the rectangle between the recorded
    anchor and end point whether or not a gesture is in progress. *)
Lemma onMouseUp_enabled_reports w pos :
  truthy (enabled (self w)) = true →
  onSelectRect (onMouseUp pos w)
  = onSelectRect w
    ++ [getSelectionBox (selectionStart (self w)) (selectionEnd (self w))].
Proof. intros Hen. unfold onMouseUp. by rewrite Hen. Qed.

(** C3. A mouse-up that reaches the enabled behaviour in its idle state
    -- here the very first event after enabling, with no mouse-down
    before it -- still calls [onSelectRect]: the handler tests
    [enabled] but not [selecting]. *)
Theorem mouseUp_idle_reports :
  let w := run initial [SetEnabled true] in
  selecting (self w) = false
  ∧ onSelectRect w = []
  ∧ onSelectRect (run w [MouseUp (mkVector2 3 4)])
    = [getSelectionBox origin origin].
Proof. repeat split. Qed.

(** C4. After a mouse-out during a selecting gesture the box is cleared
    and nothing has been reported, but the mouse-up that follows calls
    [onSelectRect] with the rectangle of the gesture that was left. *)
Theorem mouseOut_then_mouseUp_reports :
  let w := run dragging [MouseOut] in
  selecting (self w) = false
  ∧ selectionBox w = None
  ∧ onSelectRect w = []
  ∧ onSelectRect (run w [MouseUp (mkVector2 5 5)])
    = [getSelectionBox (mkVector2 1 1) (mkVector2 5 5)].
Proof. repeat split. Qed.

(** C5. Disabling the enabled behaviour -- in whatever state, so also
    during a selecting gesture -- clears the rendered selection box, and
    for as long as no [setEnabled] follows, no pointer event, the
    subsequent mouse-up in particular, calls [onSelectRect]. *)
Theorem disable_mid_gesture (w : World) :
  truthy (enabled (self w)) = true →
  selectionBox (setEnabled false w) = None
  ∧ (∀ pos, onSelectRect (onMouseUp pos (setEnabled false w))
            = onSelectRect w)
  ∧ (∀ inputs, Forall (fun i => is_mouse i = true) inputs →
               onSelectRect (run (setEnabled false w) inputs)
               = onSelectRect w).
Proof.
  intros Hen.
  assert (Hw : enabled (self w) = Some true).
  { destruct (enabled (self w)) as [[|]|]; done. }
  assert (Hdis : truthy (enabled (self (setEnabled false w))) = false).
  { unfold setEnabled. by rewrite Hw. }
  assert (Hlog : onSelectRect (setEnabled false w) = onSelectRect w).
  { unfold setEnabled. by rewrite Hw. }
  split; [|split].
  - unfold setEnabled. by rewrite Hw.
  - intros pos. unfold onMouseUp. by rewrite Hdis.
  - intros inputs Hall. by rewrite (disabled_run inputs _ Hdis Hall).
Qed.

Lemma disable_mid_gesture_witness :
  selectionBox (setEnabled false dragging) = None
  ∧ onSelectRect
      (run (setEnabled false dragging)
           [MouseMove (mkVector2 6 6); MouseUp (mkVector2 6 6)])
    = onSelectRect dragging.
Proof.
  destruct (disable_mid_gesture dragging eq_refl) as (Hbox & _ & Hrun).
  split; [exact Hbox|].
  apply Hrun. repeat constructor.
Defined.

(** The flag [selecting] survives the disabling, so a pointer move that
    follows draws the box again although the behaviour is disabled. *)
Example disabled_move_redraws :
  selectionBox
    (run (setEnabled false dragging) [MouseMove (mkVector2 6 6)])
  = Some (getSelectionBox (mkVector2 1 1) (mkVector2 6 6)).
Proof. reflexivity. Qed.

End SelectBoxFacts.

(** ** The viewport round trip *)

Module ViewportFacts.
Import Geometry Viewport.

Lemma positive_nonzero (q : Q) : 0 < q → ¬ q == 0.
Proof. intros Hq Hz. rewrite Hz in Hq. by apply Qlt_irrefl in Hq. Qed.

(** C8. With both zoom factors positive, taking a world point to the
    screen and back recovers it exactly: the viewport neither rounds nor
    snaps. *)
Theorem positionFromScreen_positionToScreen
    (s : ViewportState) (p : Vector2) :
  0 < x (zoom s) → 0 < y (zoom s) →
  Veq (positionFromScreen s (positionToScreen s p)) p.
Proof.
  intros Hx Hy. unfold Veq, positionFromScreen, positionToScreen. simpl.
  split; field; by apply positive_nonzero.
Qed.

Lemma positionFromScreen_positionToScreen_witness :
  Veq (positionFromScreen
         (mkViewportState (mkVector2 3 (-2)) (mkVector2 (5 # 2) 4))
         (positionToScreen
            (mkViewportState (mkVector2 3 (-2)) (mkVector2 (5 # 2) 4))
            (mkVector2 (7 # 3) 11)))
      (mkVector2 (7 # 3) 11).
Proof.
  apply positionFromScreen_positionToScreen; reflexivity.
Defined.

(** Sizes make the same round trip. *)
Lemma sizeFromScreen_sizeToScreen (s : ViewportState) (v : Vector2) :
  0 < x (zoom s) → 0 < y (zoom s) →
  Veq (sizeFromScreen s (sizeToScreen s v)) v.
Proof.
  intros Hx Hy. unfold Veq, sizeFromScreen, sizeToScreen. simpl.
  split; field; by apply positive_nonzero.
Qed.

(** Going to the screen is the affine map the spec gives, so the trip in
    the other direction is exact as well. *)
Lemma positionToScreen_positionFromScreen
    (s : ViewportState) (p : Vector2) :
  0 < x (zoom s) → 0 < y (zoom s) →
  Veq (positionToScreen s (positionFromScreen s p)) p.
Proof.
  intros Hx Hy. unfold Veq, positionFromScreen, positionToScreen. simpl.
  split; field; by apply positive_nonzero.
Qed.

End ViewportFacts.

(** ** Extents *)

Module ExtentsFacts.
Import Number App.

Lemma lastDegree_6 : lastDegree = 6.
Proof. reflexivity. Qed.

(** Folding [Math.min] over finite degrees from a finite start stays
    finite and never rises above the start. *)
Lemma reduce_min_le (f : Event → Q) (events : list Event) : ∀ a,
  ∃ q, fold_left (fun acc ev => Math_min acc (Fin (f ev))) events (Fin a)
       = Fin q ∧ q <= a.
Proof.
  induction events as [|ev events IH]; intros a; simpl.
  - exists a. split; [done | apply Qle_refl].
  - destruct (IH (Qmin a (f ev))) as (q & Hq & Hle).
    exists q. split; [done|].
    eapply Qle_trans; [exact Hle | apply Q.le_min_l].
Qed.

Lemma reduce_max_ge (f : Event → Q) (events : list Event) : ∀ a,
  ∃ q, fold_left (fun acc ev => Math_max acc (Fin (f ev))) events (Fin a)
       = Fin q ∧ a <= q.
Proof.
  induction events as [|ev events IH]; intros a; simpl.
  - exists a. split; [done | apply Qle_refl].
  - destruct (IH (Qmax a (f ev))) as (q & Hq & Hle).
    exists q. split; [done|].
    eapply Qle_trans; [apply Q.le_max_l | exact Hle].
Qed.

(** C9. Whatever the events, the degree range of [getExtents] covers the
    seven-degree scale: [minDegree <= 0] and
    [maxDegree >= scaleDegrees.length - 1 = 6]; and for no events the
    record is [start = 0, end = 0, size = 0, minDegree = 0,
    maxDegree = 6]. *)
Theorem getExtents_covers_scale (events : list Event) :
  le (Extents.minDegree (getExtents events)) (Fin 0)
  ∧ le (Fin lastDegree) (Extents.maxDegree (getExtents events))
  ∧ lastDegree = 6
  ∧ getExtents [] = Extents.mk (Fin 0) (Fin 0) (Fin 0) (Fin 0) (Fin 6).
Proof.
  split; [|split; [|split; reflexivity]].
  - unfold getExtents. destruct (Nat.eqb (length events) 0); simpl.
    + apply Qle_refl.
    + destruct (reduce_min_le degree events 0) as (q & -> & Hq). exact Hq.
  - unfold getExtents. destruct (Nat.eqb (length events) 0); simpl.
    + apply Qle_refl.
    + destruct (reduce_max_ge degree events lastDegree) as (q & -> & Hq).
      exact Hq.
Qed.

Example getExtents_initialEvents :
  getExtents initialEvents
  = Extents.mk (Fin 0) (Fin 9) (Fin 9) (Fin 0) (Fin 6).
Proof. reflexivity. Qed.

Example getExtents_out_of_scale :
  getExtents [mkEvent 0 (-2) 1 1; mkEvent 1 9 3 2]
  = Extents.mk (Fin 1) (Fin 5) (Fin 4) (Fin (-2)) (Fin 9).
Proof. reflexivity. Qed.

End ExtentsFacts.

(** ** The drag-move handler *)

Module DragFacts.
Import Geometry Viewport Scale App.

(** *** The store only grows *)

Lemma alloc_extends (ev : Event) (σ : gmap loc Event) :
  σ ⊆ (alloc ev σ).2.
Proof.
  unfold alloc. simpl. apply insert_subseteq, not_elem_of_dom, is_fresh.
Qed.

Lemma alloc_lookup (ev : Event) (σ : gmap loc Event) :
  (alloc ev σ).2 !! (alloc ev σ).1 = Some ev.
Proof. unfold alloc. simpl. apply lookup_insert_eq. Qed.

Lemma Array_map_extends f :
  (∀ l (σ : gmap loc Event), σ ⊆ (f l σ).2) →
  ∀ events σ, σ ⊆ (Array_map f events σ).2.
Proof.
  intros Hf. induction events as [|l events IH]; intros σ; simpl; [done|].
  pose proof (Hf l σ) as H1.
  destruct (f l σ) as [l' σ1]. simpl in H1.
  pose proof (IH σ1) as H2.
  destruct (Array_map f events σ1) as [rest' σ2]. simpl in *.
  by etrans.
Qed.

(** Element [i] of the mapped list is what [f] returned for element [i]
    of the input, in a store between the initial and the final one. *)
Lemma Array_map_lookup f :
  (∀ l (σ : gmap loc Event), σ ⊆ (f l σ).2) →
  ∀ events σ i l,
    events !! i = Some l →
    ∃ σi, σ ⊆ σi
          ∧ (f l σi).2 ⊆ (Array_map f events σ).2
          ∧ (Array_map f events σ).1 !! i = Some (f l σi).1.
Proof.
  intros Hf. induction events as [|l0 events IH]; intros σ i l Hi;
    [done|].
  simpl.
  pose proof (Hf l0 σ) as H1.
  pose proof (Array_map_extends f Hf events (f l0 σ).2) as H2.
  destruct i as [|i]; simpl in Hi.
  - injection Hi as ->. exists σ.
    destruct (f l σ) as [l' σ1]. simpl in *.
    destruct (Array_map f events σ1) as [rest' σ2]. simpl in *.
    done.
  - destruct (IH (f l0 σ).2 i l Hi) as (σi & Hsub & Hfin & Hlk).
    exists σi.
    destruct (f l0 σ) as [l' σ1]. simpl in *.
    destruct (Array_map f events σ1) as [rest' σ2]. simpl in *.
    split; [by etrans | done].
Qed.

Lemma callback_extends viewport qX qY delta m l (σ : gmap loc Event) :
  σ ⊆ (onDragMove_callback viewport qX qY delta m l σ).2.
Proof.
  unfold onDragMove_callback.
  destruct (σ !! l) as [ev|]; [|done].
  destruct (m !! id ev) as [lb|]; [|done].
  destruct (σ !! lb) as [snap|]; [|done].
  apply alloc_extends.
Qed.

Lemma onDragMove_extends viewport qX qY dragged pos events
    (σ : gmap loc Event) :
  σ ⊆ (onDragMove viewport qX qY dragged pos events σ).2.
Proof.
  unfold onDragMove. apply Array_map_extends.
  intros l σ0. apply callback_extends.
Qed.

(** *** The map of dragged events *)

Lemma new_Map_fold_None (es : list (Z * loc)) : ∀ (m : gmap Z loc) k,
  fold_left (fun m e => <[e.1 := e.2]> m) es m !! k = None
  ↔ m !! k = None ∧ k ∉ es.*1.
Proof.
  induction es as [|[k0 l0] es IH]; intros m k; simpl.
  - split; [intros H; split; [done | apply not_elem_of_nil] | tauto].
  - rewrite IH, not_elem_of_cons. simpl.
    destruct (decide (k0 = k)) as [->|Hne].
    + rewrite lookup_insert_eq. intuition congruence.
    + rewrite lookup_insert_ne by done. intuition congruence.
Qed.

Lemma new_Map_lookup_None (es : list (Z * loc)) k :
  new_Map es !! k = None ↔ k ∉ es.*1.
Proof.
  unfold new_Map. rewrite new_Map_fold_None, lookup_empty. tauto.
Qed.

Lemma new_Map_list_to_map (es : list (Z * loc)) :
  new_Map es = list_to_map (rev es).
Proof.
  unfold new_Map, list_to_map.
  by rewrite (fold_left_rev_right (fun e m => <[e.1 := e.2]> m) es ∅).
Qed.

(** With distinct ids among the dragged events, [get] returns the one
    dragged event that has the id. *)
Lemma new_Map_lookup_Some (es : list (Z * loc)) k l :
  NoDup es.*1 → (k, l) ∈ es → new_Map es !! k = Some l.
Proof.
  intros Hnd Hin. rewrite new_Map_list_to_map.
  apply elem_of_list_to_map_1.
  - change ((rev es).*1) with (map fst (rev es)). rewrite map_rev.
    by apply NoDup_ListNoDup, NoDup_rev, NoDup_ListNoDup.
  - by apply list_elem_of_In, in_rev, list_elem_of_In in Hin.
Qed.

(** References that are in the store denote the same entries in any
    larger store. *)
Lemma entries_extends (σ σ' : gmap loc Event) (dragged : list loc) :
  σ ⊆ σ' →
  Forall (fun l => is_Some (σ !! l)) dragged →
  entries σ' dragged = entries σ dragged.
Proof.
  intros Hsub. unfold entries.
  induction 1 as [|l dragged [ev Hev] _ IH]; [done|].
  csimpl. rewrite Hev, (lookup_weaken _ _ _ _ Hev Hsub). csimpl.
  by rewrite IH.
Qed.

Section Move.
Variable viewport : ViewportState.
Variable qX qY : QuantizedScale.
Variable draggedEvents : list loc.

(** C10. An event whose id is not among the ids of the dragged events is
    returned as the identical object: the same reference at the same
    index, holding the same [start], [degree] and other fields as before
    the move. *)
Theorem onDragMove_frame (pos : DragPos) (events : list loc)
    (σ : gmap loc Event) (i : nat) (l : loc) (ev : Event) :
  events !! i = Some l →
  σ !! l = Some ev →
  id ev ∉ (entries σ draggedEvents).*1 →
  let r := onDragMove viewport qX qY draggedEvents pos events σ in
  r.1 !! i = Some l ∧ r.2 !! l = Some ev.
Proof.
  intros Hi Hl Hid r. subst r. unfold onDragMove.
  set (f := onDragMove_callback _ _ _ _ _).
  assert (Hf : ∀ l0 (σ0 : gmap loc Event), σ0 ⊆ (f l0 σ0).2)
    by (intros; apply callback_extends).
  destruct (Array_map_lookup f Hf events σ i l Hi)
    as (σi & Hsub & Hfin & Hlk).
  pose proof (lookup_weaken _ _ _ _ Hl Hsub) as Hli.
  assert (Hsame : f l σi = (l, σi)).
  { unfold f, onDragMove_callback. rewrite Hli.
    apply new_Map_lookup_None in Hid. by rewrite Hid. }
  rewrite Hsame in Hlk, Hfin. simpl in *.
  split; [done|]. by eapply lookup_weaken.
Qed.

(** One move: a dragged event is replaced by a new object whose
    position is the snapshot's plus the quantized delta. *)
Lemma onDragMove_dragged (pos : DragPos) (events : list loc)
    (σ : gmap loc Event) (i : nat) (l lb : loc) (ev snap : Event) :
  events !! i = Some l →
  σ !! l = Some ev →
  new_Map (entries σ draggedEvents) !! id ev = Some lb →
  σ !! lb = Some snap →
  let r := onDragMove viewport qX qY draggedEvents pos events σ in
  ∃ l', r.1 !! i = Some l'
        ∧ r.2 !! l'
          = Some (mkEvent
                    (id ev)
                    (degree snap + deltaYQuantized viewport qY (delta_of pos))
                    (start snap + deltaXQuantized viewport qX (delta_of pos))
                    (duration ev)).
Proof.
  intros Hi Hl Hmap Hsnap r. subst r. unfold onDragMove.
  set (f := onDragMove_callback _ _ _ _ _).
  assert (Hf : ∀ l0 (σ0 : gmap loc Event), σ0 ⊆ (f l0 σ0).2)
    by (intros; apply callback_extends).
  destruct (Array_map_lookup f Hf events σ i l Hi)
    as (σi & Hsub & Hfin & Hlk).
  pose proof (lookup_weaken _ _ _ _ Hl Hsub) as Hli.
  pose proof (lookup_weaken _ _ _ _ Hsnap Hsub) as Hsi.
  unfold f, onDragMove_callback in Hlk, Hfin.
  rewrite Hli, Hmap, Hsi in Hlk, Hfin.
  eexists. split; [exact Hlk|].
  eapply lookup_weaken; [apply alloc_lookup | exact Hfin].
Qed.

(** C6. A dragged event's new position is its pre-drag snapshot plus
    the quantized delta of the move ([start = snapshot.start +
    quantize(d.x)], [degree = snapshot.degree + quantize(d.y)]); and a
    second move of the same drag, made on the events the first one
    left behind, gives the snapshot plus the second delta: the
    position the first move wrote is not read, so nothing
    accumulates. *)
Theorem onDragMove_from_snapshot (pos1 pos2 : DragPos)
    (events : list loc) (σ : gmap loc Event)
    (i : nat) (l lb : loc) (ev snap : Event) :
  Forall (fun l => is_Some (σ !! l)) draggedEvents →
  events !! i = Some l →
  σ !! l = Some ev →
  new_Map (entries σ draggedEvents) !! id ev = Some lb →
  σ !! lb = Some snap →
  let r1 := onDragMove viewport qX qY draggedEvents pos1 events σ in
  let r2 := onDragMove viewport qX qY draggedEvents pos2 r1.1 r1.2 in
  (∃ l1, r1.1 !! i = Some l1
         ∧ r1.2 !! l1
           = Some (mkEvent
                     (id ev)
                     (degree snap
                      + deltaYQuantized viewport qY (delta_of pos1))
                     (start snap
                      + deltaXQuantized viewport qX (delta_of pos1))
                     (duration ev)))
  ∧ (∃ l2, r2.1 !! i = Some l2
           ∧ r2.2 !! l2
             = Some (mkEvent
                       (id ev)
                       (degree snap
                        + deltaYQuantized viewport qY (delta_of pos2))
                       (start snap
                        + deltaXQuantized viewport qX (delta_of pos2))
                       (duration ev))).
Proof.
  intros Hwf Hi Hl Hmap Hsnap r1 r2.
  destruct (onDragMove_dragged pos1 events σ i l lb ev snap
              Hi Hl Hmap Hsnap) as (l1 & Hi1 & Hl1).
  fold r1 in Hi1, Hl1.
  split; [by exists l1|].
  pose proof (onDragMove_extends viewport qX qY draggedEvents pos1
                events σ) as Hsub.
  fold r1 in Hsub.
  apply (onDragMove_dragged pos2 r1.1 r1.2 i l1 lb
           (mkEvent (id ev)
                    (degree snap
                     + deltaYQuantized viewport qY (delta_of pos1))
                    (start snap
                     + deltaXQuantized viewport qX (delta_of pos1))
                    (duration ev))
           snap);
    [exact Hi1 | exact Hl1 | | by eapply lookup_weaken].
  by rewrite (entries_extends σ r1.2 draggedEvents Hsub Hwf).
Qed.

End Move.

(** *** The handler on a concrete store *)

Lemma onDragMove_frame_witness :
  (Scenes.afterDragX 20).1 !! 1%nat = Some 2%positive
  ∧ (Scenes.afterDragX 20).2 !! 2%positive = Some Scenes.otherEvent.
Proof.
  apply (onDragMove_frame Scenes.unitViewport quantizerX quantizerY
           [1%positive] (Scenes.dragX 20) Scenes.events0 Scenes.store0
           1%nat 2%positive Scenes.otherEvent).
  - reflexivity.
  - reflexivity.
  - intros Hin. apply list_elem_of_singleton in Hin. discriminate Hin.
Defined.

Lemma onDragMove_from_snapshot_witness :
  (∃ l1, (Scenes.afterDragX 14).1 !! 0%nat = Some l1
         ∧ (Scenes.afterDragX 14).2 !! l1 = Some (mkEvent 0 5 5 1))
  ∧ (∃ l2,
        (onDragMove Scenes.unitViewport quantizerX quantizerY [1%positive]
           (Scenes.dragX 20)
           (Scenes.afterDragX 14).1 (Scenes.afterDragX 14).2).1 !! 0%nat
        = Some l2
        ∧ (onDragMove Scenes.unitViewport quantizerX quantizerY
             [1%positive] (Scenes.dragX 20)
             (Scenes.afterDragX 14).1 (Scenes.afterDragX 14).2).2 !! l2
          = Some (mkEvent 0 5 6 1)).
Proof.
  apply (onDragMove_from_snapshot Scenes.unitViewport quantizerX quantizerY
           [1%positive] (Scenes.dragX 14) (Scenes.dragX 20)
           Scenes.events0 Scenes.store0 0%nat 1%positive 1%positive
           Scenes.theEvent Scenes.theEvent).
  - repeat constructor. by eexists.
  - reflexivity.
  - reflexivity.
  - reflexivity.
  - reflexivity.
Defined.

(** A drag whose pointer is first 14 and then 20 pixels from where it
    went down: the event is at start 5 after the first move and at
    start 6 after the second -- two quarter notes from its snapshot,
    not three. *)
Example two_moves_one_drag :
  deref (Scenes.afterDragX 14).2 (Scenes.afterDragX 14).1
  = [Some (mkEvent 0 5 5 1); Some Scenes.otherEvent]
  ∧ deref
      (onDragMove Scenes.unitViewport quantizerX quantizerY [1%positive]
         (Scenes.dragX 20)
         (Scenes.afterDragX 14).1 (Scenes.afterDragX 14).2).2
      (onDragMove Scenes.unitViewport quantizerX quantizerY [1%positive]
         (Scenes.dragX 20)
         (Scenes.afterDragX 14).1 (Scenes.afterDragX 14).2).1
    = [Some (mkEvent 0 5 6 1); Some Scenes.otherEvent].
Proof. split; reflexivity. Qed.

End DragFacts.

(** ** The drag scenario *)

Module DragScenario.
Import Geometry Viewport Scale App Scenes.

(** The component's x quantizer counts quarter notes of ten pixels. *)
Example quantizerX_pixels :
  to quantizerX Range 2 = 0 ∧ to quantizerX Range 5 = 1
  ∧ to quantizerX Range 20 = 2 ∧ to quantizerX Domain 2 = 20.
Proof. repeat split. Qed.

(** The component's own x quantizer does have a step.  With it and zoom 1,
    dragging the event at start 4, degree 5 by 2 screen pixels along x
    leaves its start at 4: two pixels are a fifth of a quarter note and
    round to none. *)
Lemma drag_two_pixels_start_4 :
  ∃ ev', deref (afterDragX 2).2 (afterDragX 2).1
         = [Some ev'; Some otherEvent]
         ∧ start ev' == 4 ∧ ¬ start ev' == 6.
Proof.
  exists (mkEvent 0 5 4 1). split; [reflexivity|].
  split; [reflexivity | discriminate].
Qed.

(** With zoom 1 and the component's quantizer, a drag of
    2 * QUARTER_NOTE_WIDTH = 20 screen pixels along x takes the event
    from start 4 to start 6 and leaves its degree at 5. *)
Example drag_two_quarter_notes_start_6 :
  2 * QUARTER_NOTE_WIDTH * x (zoom unitViewport) == 20
  ∧ deref (afterDragX 20).2 (afterDragX 20).1
    = [Some (mkEvent 0 5 6 1); Some otherEvent].
Proof. split; reflexivity. Qed.



(** The same scenario, evaluated: the dragged event ends at start 6 and
    the other event is as it was. *)
Example drag_two_pixels_identity_scale :
  deref (onDragMove unitViewport identityScale identityScale [1%positive]
                    (dragX 2) events0 store0).2
        (onDragMove unitViewport identityScale identityScale [1%positive]
                    (dragX 2) events0 store0).1
  = [Some (mkEvent 0 5 6 1); Some otherEvent].
Proof. reflexivity. Qed.

End DragScenario.

(** * Further properties *)

(** ** Hit-testing: order, composition, edges *)

Section HitTestMore.

Context {Rect Point Obj : Type}.
Variable containsPoint : Rect → Point → bool.
Variable intersectsRect : Rect → Rect → bool.

Local Abbreviation Drawn := (DrawnElement Rect Obj).

(** The point loop as a search through the reversed list. *)
Lemma getIntersectingEvent_loop_take (point : Point) (l : list Drawn) n :
  getIntersectingEvent_loop containsPoint point l n
  = object <$> List.find (fun el => containsPoint (rect el) point)
                         (rev (take n l)).
Proof.
  induction n as [|n IH]; cbn [getIntersectingEvent_loop].
  - by rewrite take_0.
  - destruct (l !! n) as [el|] eqn:Hn.
    + rewrite (take_S_r _ _ _ Hn), rev_unit. simpl.
      by destruct (containsPoint (rect el) point).
    + rewrite IH. apply lookup_ge_None in Hn.
      rewrite !take_ge; [done | lia | lia].
Qed.

Lemma getIntersectingEvent_find (point : Point) (l : list Drawn) :
  getIntersectingEvent containsPoint point l
  = object <$> List.find (fun el => containsPoint (rect el) point) (rev l).
Proof.
  unfold getIntersectingEvent.
  by rewrite getIntersectingEvent_loop_take, firstn_all.
Qed.

(** X1. The point hit-test answers with an object exactly when some drawn
    rectangle contains the point, and the object it answers with was
    drawn with a rectangle that contains the point. *)
Theorem getIntersectingEvent_hit_iff (point : Point) (l : list Drawn) :
  (is_Some (getIntersectingEvent containsPoint point l)
   ↔ ∃ el, el ∈ l ∧ containsPoint (rect el) point = true)
  ∧ (∀ o, getIntersectingEvent containsPoint point l = Some o →
          ∃ el, el ∈ l ∧ object el = o
                ∧ containsPoint (rect el) point = true).
Proof.
  rewrite getIntersectingEvent_find.
  assert (Hsound : ∀ o,
    object <$> List.find (fun el => containsPoint (rect el) point) (rev l)
    = Some o →
    ∃ el, el ∈ l ∧ object el = o ∧ containsPoint (rect el) point = true).
  { intros o Ho.
    destruct (List.find _ (rev l)) as [el|] eqn:Hfind; [|done].
    apply find_some in Hfind as [Hin Hc]. injection Ho as <-.
    exists el. split; [|done]. by apply list_elem_of_In, in_rev. }
  split; [split|exact Hsound].
  - intros [o Ho]. destruct (Hsound o Ho) as (el & Hel & _ & Hc). eauto.
  - intros (el & Hel & Hc).
    destruct (List.find _ (rev l)) as [el'|] eqn:Hfind; [by eexists|].
    apply list_elem_of_In, in_rev in Hel.
    rewrite (find_none _ _ Hfind el Hel) in Hc. discriminate Hc.
Qed.

(** X2. Drawing one more element puts it on top: it wins the point hit-test
    whenever it contains the point, and otherwise the answer is the one
    for the elements drawn before. *)
Theorem getIntersectingEvent_snoc (point : Point) (l : list Drawn)
    (el : Drawn) :
  getIntersectingEvent containsPoint point (l ++ [el])
  = if containsPoint (rect el) point then Some (object el)
    else getIntersectingEvent containsPoint point l.
Proof.
  rewrite !getIntersectingEvent_find, rev_unit. simpl.
  by destruct (containsPoint (rect el) point).
Qed.

(** X3. The box hit-test reports the intersecting objects in reverse drawing
    order, the frontmost first, one entry for each intersecting drawn
    element. *)
Theorem findIntersectingEvents_frontmost_first (r : Rect)
    (l : list Drawn) :
  findIntersectingEvents intersectsRect r l
  = rev (map object
           (List.filter (fun el => intersectsRect (rect el) r) l)).
Proof.
  by rewrite findIntersectingEvents_filter, <- map_rev, List.filter_rev.
Qed.

(** X4. Box hit-testing two batches drawn one after the other gives the hits
    of the later batch followed by the hits of the earlier one. *)
Theorem findIntersectingEvents_app (r : Rect) (l1 l2 : list Drawn) :
  findIntersectingEvents intersectsRect r (l1 ++ l2)
  = findIntersectingEvents intersectsRect r l2
    ++ findIntersectingEvents intersectsRect r l1.
Proof.
  rewrite !findIntersectingEvents_filter.
  by rewrite rev_app_distr, List.filter_app, map_app.
Qed.

(** X5. The box hit-test comes back empty exactly when no drawn rectangle
    intersects the query. *)
Theorem findIntersectingEvents_nil_iff (r : Rect) (l : list Drawn) :
  findIntersectingEvents intersectsRect r l = []
  ↔ ∀ el, el ∈ l → intersectsRect (rect el) r = false.
Proof.
  rewrite findIntersectingEvents_filter. split.
  - intros Hnil el Hel.
    destruct (intersectsRect (rect el) r) eqn:Hi; [|done].
    assert (Hin : In (object el)
                     (map object
                        (List.filter
                           (fun el => intersectsRect (rect el) r) (rev l)))).
    { apply in_map, filter_In. split; [|done].
      by apply list_elem_of_In, in_rev in Hel. }
    rewrite Hnil in Hin. destruct Hin.
  - intros Hnone.
    destruct (List.filter _ (rev l)) as [|el rest] eqn:Hf; [done|].
    assert (Hin : In el (List.filter
                           (fun el => intersectsRect (rect el) r) (rev l)))
      by (rewrite Hf; by left).
    apply filter_In in Hin as [Hin Hi].
    rewrite Hnone in Hi; [discriminate Hi|].
    by apply list_elem_of_In, in_rev.
Qed.

(** X6. When a point and a box meet the same drawn rectangles, the point
    hit-test returns the first entry of the box hit-test: both loops go
    through the elements from the frontmost to the backmost. *)
Theorem getIntersectingEvent_head_findIntersectingEvents
    (point : Point) (r : Rect) (l : list Drawn) :
  (∀ el, el ∈ l →
         containsPoint (rect el) point = intersectsRect (rect el) r) →
  getIntersectingEvent containsPoint point l
  = head (findIntersectingEvents intersectsRect r l).
Proof.
  intros Hsame.
  rewrite getIntersectingEvent_find, findIntersectingEvents_filter.
  assert (Hrev : ∀ el, In el (rev l) →
            containsPoint (rect el) point = intersectsRect (rect el) r).
  { intros el Hel. apply Hsame. by apply list_elem_of_In, in_rev. }
  induction (rev l) as [|el rest IH]; [done|].
  simpl. rewrite (Hrev el) by (by left).
  destruct (intersectsRect (rect el) r); [done|].
  apply IH. intros el' Hel'. apply Hrev. by right.
Qed.

End HitTestMore.

Module HitTestMoreScenes.
Import Geometry.

Lemma getIntersectingEvent_head_findIntersectingEvents_witness :
  getIntersectingEvent containsPoint (mkVector2 7 7) Scenes.overlapping
  = head (findIntersectingEvents intersectsRect
            (mkRect (mkVector2 6 6) (mkVector2 2 2)) Scenes.overlapping).
Proof.
  apply getIntersectingEvent_head_findIntersectingEvents.
  intros el Hel.
  apply elem_of_cons in Hel as [->|Hel]; [reflexivity|].
  apply elem_of_cons in Hel as [->|Hel]; [reflexivity|].
  by apply elem_of_nil in Hel.
Defined.

End HitTestMoreScenes.

(** ** The tooltip and the selection *)

Section TooltipFacts.
Import Geometry.

Context {Rect Obj : Type}.
Variable containsPoint : Rect → Vector2 → bool.

(** X7. On a pointer move the tooltip is rendered exactly when the pointer is
    over some drawn rectangle; it is then placed [TOOLTIP_OFFSET] right of
    and below the pointer and shows what the point hit-test returned. *)
Theorem tooltip_shown_iff (drawnElements : list (DrawnElement Rect Obj))
    (mousePos : Vector2) :
  (Tooltip.onMouseMove containsPoint drawnElements mousePos = None
   ↔ ∀ el, el ∈ drawnElements → containsPoint (rect el) mousePos = false)
  ∧ (∀ at_ o,
       Tooltip.onMouseMove containsPoint drawnElements mousePos
       = Some (at_, o) →
       at_ = mkVector2 (x mousePos + 8) (y mousePos + 8)
       ∧ getIntersectingEvent containsPoint mousePos drawnElements
         = Some o).
Proof.
  unfold Tooltip.onMouseMove, Tooltip.getEventAtPos.
  pose proof (getIntersectingEvent_loop_spec containsPoint mousePos
                drawnElements (length drawnElements)) as Hspec.
  fold (getIntersectingEvent containsPoint mousePos drawnElements) in Hspec.
  destruct (getIntersectingEvent containsPoint mousePos drawnElements)
    as [o|].
  - split.
    + split; [done|]. intros Hnone.
      destruct Hspec as (i & el & _ & Hl & Hc & _).
      rewrite Hnone in Hc; [done|]. apply list_elem_of_lookup. eauto.
    + intros at_ o' Heq. by injection Heq as <- <-.
  - split; [|done]. split; [|done]. intros _ el Hel.
    apply list_elem_of_lookup in Hel as [j Hj].
    apply (Hspec j el); [|done]. by eapply lookup_lt_Some.
Qed.

End TooltipFacts.

Section SelectionFacts.
Import App.

Context {Rect : Type}.
Variable intersectsRect : Rect → Rect → bool.

(** X8. After a box selection an id is selected exactly when it is the id of
    an event one of whose rendered rectangles intersects the box; events
    drawn more than once or sharing an id count once. *)
Theorem onSelectRect_ids (selectBoxRect : Rect)
    (renderedRects : list (DrawnElement Rect Event)) (k : Z) :
  k ∈ Selection.onSelectRect intersectsRect selectBoxRect renderedRects
  ↔ ∃ el, el ∈ renderedRects ∧ id (object el) = k
          ∧ intersectsRect (rect el) selectBoxRect = true.
Proof.
  unfold Selection.onSelectRect.
  rewrite elem_of_list_to_set, findIntersectingEvents_filter, map_map.
  rewrite list_elem_of_In, in_map_iff. split.
  - intros (el & Hid & Hin). apply filter_In in Hin as [Hin Hi].
    exists el. split; [|done]. by apply list_elem_of_In, in_rev.
  - intros (el & Hel & Hid & Hi). exists el. split; [done|].
    apply filter_In. split; [|done].
    by apply list_elem_of_In, in_rev in Hel.
Qed.

End SelectionFacts.

(** ** The box-select behaviour: gestures and invariants *)

Module GestureFacts.
Import Geometry SelectBox Gesture Scenes.

Lemma run_app w inputs1 inputs2 :
  run w (inputs1 ++ inputs2) = run (run w inputs1) inputs2.
Proof. apply fold_left_app. Qed.

Lemma last_cons_default {A} (a : A) (l : list A) (d d' : A) :
  List.last (a :: l) d = List.last (a :: l) d'.
Proof.
  revert a. induction l as [|b l IH]; intros a; [done|].
  change (List.last (b :: l) d = List.last (b :: l) d'). apply IH.
Qed.

(** While a gesture is in progress, a train of pointer moves keeps the
    anchor, ends at the last position and draws the box up to there. *)
Lemma run_moves ps : ∀ sStart sEnd en box log,
  run (mkWorld (mkBehavior sStart sEnd true en) box log)
      (map MouseMove ps)
  = mkWorld (mkBehavior sStart (List.last ps sEnd) true en)
            (match ps with
             | [] => box
             | _ => Some (getSelectionBox sStart (List.last ps sEnd))
             end)
            log.
Proof.
  induction ps as [|p ps IH]; intros sStart sEnd en box log; [done|].
  cbn [map run fold_left step]. unfold onMouseMove. cbn.
  fold (run (mkWorld (mkBehavior sStart p true en)
                     (Some (getSelectionBox sStart p)) log)
            (map MouseMove ps)).
  rewrite IH. destruct ps as [|p' ps]; [done|].
  by rewrite (last_cons_default p' ps p sEnd).
Qed.

(** X9. A complete gesture on the enabled behaviour -- down at [a], any
    moves, up -- calls [onSelectRect] once, with the rectangle between
    [a] and the last position moved to ([a] itself for a plain click),
    clears the box and ends the gesture. *)
Theorem drag_reports_once (w : World) (a q : Vector2)
    (ps : list Vector2) :
  truthy (enabled (self w)) = true →
  let w' := run w (drag a ps q) in
  onSelectRect w' = onSelectRect w ++ [getSelectionBox a (List.last ps a)]
  ∧ selectionBox w' = None
  ∧ selecting (self w') = false.
Proof.
  intros Hen w'. subst w'. unfold drag.
  destruct w as [[sStart sEnd sel en] box log]. simpl in Hen.
  cbn [run fold_left step]. unfold onMouseDown. cbn. rewrite Hen. cbn.
  fold (run (mkWorld (mkBehavior a a true en) box log)
            (map MouseMove ps ++ [MouseUp q])).
  rewrite run_app, run_moves. cbn. unfold onMouseUp. cbn.
  by rewrite Hen.
Qed.

Lemma drag_reports_once_witness :
  onSelectRect
    (run (run initial [SetEnabled true])
         (drag (mkVector2 5 5) [mkVector2 3 7; mkVector2 1 9]
               (mkVector2 1 9)))
  = [getSelectionBox (mkVector2 5 5) (mkVector2 1 9)].
Proof.
  exact (proj1 (drag_reports_once (run initial [SetEnabled true])
                  (mkVector2 5 5) (mkVector2 1 9)
                  [mkVector2 3 7; mkVector2 1 9] eq_refl)).
Defined.

(** X10. During a gesture on the enabled behaviour the rendered box is the
    rectangle between the anchor and the pointer's current position. *)
Theorem box_follows_pointer (w : World) (a p : Vector2)
    (ps : list Vector2) :
  truthy (enabled (self w)) = true →
  selectionBox (run w (MouseDown a :: map MouseMove (ps ++ [p])))
  = Some (getSelectionBox a p).
Proof.
  intros Hen. destruct w as [[sStart sEnd sel en] box log]. simpl in Hen.
  cbn [run fold_left step]. unfold onMouseDown. cbn. rewrite Hen. cbn.
  fold (run (mkWorld (mkBehavior a a true en) box log)
            (map MouseMove (ps ++ [p]))).
  rewrite run_moves. cbn. rewrite List.last_last.
  by destruct ps.
Qed.

Lemma box_follows_pointer_witness :
  selectionBox
    (run (run initial [SetEnabled true])
         (MouseDown (mkVector2 5 5)
          :: map MouseMove ([mkVector2 3 7] ++ [mkVector2 1 9])))
  = Some (getSelectionBox (mkVector2 5 5) (mkVector2 1 9)).
Proof.
  exact (box_follows_pointer (run initial [SetEnabled true])
           (mkVector2 5 5) (mkVector2 1 9) [mkVector2 3 7] eq_refl).
Defined.

(** A box is only ever on display while [selecting] is set. *)
Lemma box_implies_selecting_step w i :
  (is_Some (selectionBox w) → selecting (self w) = true) →
  is_Some (selectionBox (step w i)) → selecting (self (step w i)) = true.
Proof.
  intros Hinv. destruct w as [[sStart sEnd sel en] box log].
  destruct i as [b|pos|pos| |pos]; simpl in *.
  - unfold setEnabled. simpl.
    destruct (strict_eq en b); [exact Hinv|].
    destruct b; simpl; [exact Hinv | by intros [? ?]].
  - unfold onMouseDown. simpl. destruct (truthy en); simpl; [done|].
    exact Hinv.
  - unfold onMouseUp. simpl. destruct (truthy en); simpl;
      [by intros [? ?] | exact Hinv].
  - unfold onMouseOut. simpl. destruct (truthy en); simpl;
      [by intros [? ?] | exact Hinv].
  - unfold onMouseMove. simpl. destruct sel; simpl; [done | exact Hinv].
Qed.

(** X11. Whatever reaches a new behaviour, and in whatever order, a selection
    box is rendered only while the behaviour is in its selecting state:
    every handler that leaves the state clears the box. *)
Theorem box_implies_selecting (inputs : list input) :
  is_Some (selectionBox (run initial inputs)) →
  selecting (self (run initial inputs)) = true.
Proof.
  assert (Hgen : ∀ w,
    (is_Some (selectionBox w) → selecting (self w) = true) →
    is_Some (selectionBox (run w inputs)) →
    selecting (self (run w inputs)) = true).
  { induction inputs as [|i inputs IH]; intros w Hinv; [exact Hinv|].
    simpl. apply IH. by apply box_implies_selecting_step. }
  apply Hgen. by intros [? ?].
Qed.

Lemma box_implies_selecting_witness :
  selecting (self dragging) = true.
Proof.
  apply (box_implies_selecting
           [SetEnabled true; MouseDown (mkVector2 1 1);
            MouseMove (mkVector2 5 5)]).
  by eexists.
Defined.

(** X12. A behaviour that is not enabled and not in a gesture -- a new one in
    particular, whose [enabled] is still undefined -- ignores every
    pointer event: nothing is recorded, rendered or reported. *)
Theorem idle_disabled_inert (w : World) (inputs : list input) :
  truthy (enabled (self w)) = false →
  selecting (self w) = false →
  Forall (fun i => is_mouse i = true) inputs →
  run w inputs = w.
Proof.
  intros Hdis Hsel Hall. induction Hall as [|i inputs Hi _ IH]; [done|].
  simpl. assert (Hstep : step w i = w); [|by rewrite Hstep].
  destruct i as [b|pos|pos| |pos]; simpl in *; try discriminate.
  - unfold onMouseDown. by rewrite Hdis.
  - unfold onMouseUp. by rewrite Hdis.
  - unfold onMouseOut. by rewrite Hdis.
  - unfold onMouseMove. by rewrite Hsel.
Qed.

Lemma idle_disabled_inert_witness :
  run initial (drag (mkVector2 1 1) [mkVector2 5 5] (mkVector2 5 5))
  = initial.
Proof.
  apply idle_disabled_inert; [reflexivity | reflexivity |].
  repeat constructor.
Defined.

(** X13. [onSelectRect] is called by the mouse-up handler and by no other: the
    rectangles reported so far are never dropped or changed, and a run of
    inputs adds at most one per mouse-up in it. *)
Theorem reports_only_on_mouseUp (w : World) (inputs : list input) :
  ∃ new, onSelectRect (run w inputs) = onSelectRect w ++ new
         ∧ (length new ≤ length (List.filter is_mouseUp inputs))%nat.
Proof.
  revert w. induction inputs as [|i inputs IH]; intros w.
  - exists []. by rewrite app_nil_r.
  - simpl. destruct (IH (step w i)) as (new & Hnew & Hlen).
    rewrite Hnew.
    destruct i as [b|pos|pos| |pos]; simpl in *.
    + exists new. split; [|done]. f_equal. unfold setEnabled.
      destruct (strict_eq _ b); [done|]. by destruct b.
    + exists new. split; [|done]. f_equal. unfold onMouseDown.
      by destruct (truthy _).
    + unfold onMouseUp. destruct (truthy (enabled (self w))); simpl.
      * eexists. rewrite <- app_assoc. split; [done|]. simpl. lia.
      * exists new. split; [done | lia].
    + exists new. split; [|done]. f_equal. unfold onMouseOut.
      by destruct (truthy _).
    + exists new. split; [|done]. f_equal. unfold onMouseMove.
      by destruct (selecting _).
Qed.

(** X14. Switching the behaviour off and on again in the middle of a gesture
    clears the box but does not end the gesture: anchor, end point and
    [selecting] are kept, so the mouse-up that follows reports the same
    rectangle as if the behaviour had stayed enabled. *)
Theorem disable_enable_keeps_gesture (w : World) (pos : Vector2) :
  truthy (enabled (self w)) = true →
  setEnabled true (setEnabled false w)
  = mkWorld (self w) None (onSelectRect w)
  ∧ onSelectRect (onMouseUp pos (setEnabled true (setEnabled false w)))
    = onSelectRect (onMouseUp pos w).
Proof.
  intros Hen. destruct w as [[sStart sEnd sel en] box log].
  destruct en as [[|]|]; try discriminate Hen. done.
Qed.

Lemma disable_enable_keeps_gesture_witness :
  onSelectRect
    (onMouseUp (mkVector2 5 5)
               (setEnabled true (setEnabled false dragging)))
  = [getSelectionBox (mkVector2 1 1) (mkVector2 5 5)].
Proof.
  exact (proj2 (disable_enable_keeps_gesture dragging (mkVector2 5 5)
                  eq_refl)).
Defined.

Lemma disabled_selecting_step w i :
  truthy (enabled (self w)) = false → selecting (self w) = true →
  is_mouse i = true →
  truthy (enabled (self (step w i))) = false
  ∧ selecting (self (step w i)) = true
  ∧ selectionStart (self (step w i)) = selectionStart (self w).
Proof.
  intros Hdis Hsel Hmouse.
  destruct i as [b|pos|pos| |pos]; simpl in *; try discriminate.
  - unfold onMouseDown. by rewrite Hdis.
  - unfold onMouseUp. by rewrite Hdis.
  - unfold onMouseOut. by rewrite Hdis.
  - unfold onMouseMove. by rewrite Hsel.
Qed.

(** X15. Disabling does not reset [selecting], and while the behaviour is
    disabled neither mouse-up nor mouse-out can end the gesture: whatever
    pointer events follow, the behaviour stays in its selecting state with
    the old anchor, and every pointer move draws the selection box
    again, since the move handler tests [selecting] alone. *)
Theorem disabled_gesture_stuck (w : World) (inputs : list input)
    (pos : Vector2) :
  selecting (self w) = true →
  Forall (fun i => is_mouse i = true) inputs →
  let w' := run (setEnabled false w) inputs in
  truthy (enabled (self w')) = false
  ∧ selecting (self w') = true
  ∧ selectionBox (onMouseMove pos w')
    = Some (getSelectionBox (selectionStart (self w)) pos).
Proof.
  intros Hsel Hall w'.
  assert (Hgen : ∀ w0,
    truthy (enabled (self w0)) = false → selecting (self w0) = true →
    truthy (enabled (self (run w0 inputs))) = false
    ∧ selecting (self (run w0 inputs)) = true
    ∧ selectionStart (self (run w0 inputs)) = selectionStart (self w0)).
  { induction Hall as [|i inputs Hi _ IH]; intros w0 Hdis0 Hsel0; [done|].
    destruct (disabled_selecting_step w0 i Hdis0 Hsel0 Hi)
      as (Hdis1 & Hsel1 & Hstart1).
    simpl. destruct (IH _ Hdis1 Hsel1) as (? & ? & Hstart).
    by rewrite Hstart, Hstart1. }
  destruct (Hgen (setEnabled false w)) as (Hdis' & Hsel' & Hstart').
  - destruct w as [[sStart sEnd sel en] box log]. by destruct en as [[|]|].
  - destruct w as [[sStart sEnd sel en] box log]. by destruct en as [[|]|].
  - fold w' in Hdis', Hsel', Hstart'.
    split; [done|]. split; [done|].
    unfold onMouseMove. rewrite Hsel'. simpl. rewrite Hstart'.
    destruct w as [[sStart sEnd sel en] box log]. by destruct en as [[|]|].
Qed.

Lemma disabled_gesture_stuck_witness :
  selectionBox
    (onMouseMove (mkVector2 6 6)
       (run (setEnabled false dragging)
            [MouseUp (mkVector2 5 5); MouseOut]))
  = Some (getSelectionBox (mkVector2 1 1) (mkVector2 6 6)).
Proof.
  apply (disabled_gesture_stuck dragging
           [MouseUp (mkVector2 5 5); MouseOut] (mkVector2 6 6));
    [reflexivity | repeat constructor].
Defined.

End GestureFacts.

(** ** Extents: the interval and the degree range *)

Module ExtentsMore.
Import Number App.

(** Folding [Math.min] of finite values from a finite start: the result
    is finite, below the start and below every value, and it is the
    start or one of the values. *)
Lemma reduce_min_spec (f : Event → Q) (events : list Event) : ∀ a,
  ∃ q, fold_left (fun acc ev => Math_min acc (Fin (f ev))) events (Fin a)
       = Fin q
       ∧ q <= a
       ∧ (∀ ev, ev ∈ events → q <= f ev)
       ∧ (q == a ∨ ∃ ev, ev ∈ events ∧ q == f ev).
Proof.
  induction events as [|ev events IH]; intros a; simpl.
  - exists a. repeat split; [apply Qle_refl | | by left].
    intros ev Hev. by apply elem_of_nil in Hev.
  - destruct (IH (Qmin a (f ev))) as (q & Hq & Hle & Hall & Hatt).
    exists q. split; [done|]. split; [|split].
    + eapply Qle_trans; [exact Hle | apply Q.le_min_l].
    + intros ev' Hev'. apply elem_of_cons in Hev' as [->|Hev'].
      * eapply Qle_trans; [exact Hle | apply Q.le_min_r].
      * by apply Hall.
    + destruct Hatt as [Hatt|(ev' & Hev' & Hatt)].
      * destruct (Q.min_dec a (f ev)) as [Hm|Hm]; rewrite Hm in Hatt.
        -- by left.
        -- right. exists ev. split; [apply list_elem_of_here | done].
      * right. exists ev'. split; [by apply list_elem_of_further | done].
Qed.

Lemma reduce_max_spec (f : Event → Q) (events : list Event) : ∀ a,
  ∃ q, fold_left (fun acc ev => Math_max acc (Fin (f ev))) events (Fin a)
       = Fin q
       ∧ a <= q
       ∧ (∀ ev, ev ∈ events → f ev <= q)
       ∧ (q == a ∨ ∃ ev, ev ∈ events ∧ q == f ev).
Proof.
  induction events as [|ev events IH]; intros a; simpl.
  - exists a. repeat split; [apply Qle_refl | | by left].
    intros ev Hev. by apply elem_of_nil in Hev.
  - destruct (IH (Qmax a (f ev))) as (q & Hq & Hle & Hall & Hatt).
    exists q. split; [done|]. split; [|split].
    + eapply Qle_trans; [apply Q.le_max_l | exact Hle].
    + intros ev' Hev'. apply elem_of_cons in Hev' as [->|Hev'].
      * eapply Qle_trans; [apply Q.le_max_r | exact Hle].
      * by apply Hall.
    + destruct Hatt as [Hatt|(ev' & Hev' & Hatt)].
      * destruct (Q.max_dec a (f ev)) as [Hm|Hm]; rewrite Hm in Hatt.
        -- by left.
        -- right. exists ev. split; [apply list_elem_of_here | done].
      * right. exists ev'. split; [by apply list_elem_of_further | done].
Qed.

(** The extents of a non-empty list, field by field: all finite, with
    start the least [start], end the greatest [start + duration], both
    attained, and size their difference. *)
Lemma getExtents_cons (ev0 : Event) (rest : list Event) :
  ∃ s e lo hi,
    getExtents (ev0 :: rest)
    = Extents.mk (Fin s) (Fin e) (Fin (e - s)) (Fin lo) (Fin hi)
    ∧ (∀ ev, ev ∈ ev0 :: rest →
             s <= start ev ∧ start ev + duration ev <= e
             ∧ lo <= degree ev ∧ degree ev <= hi)
    ∧ (∃ ev, ev ∈ ev0 :: rest ∧ s == start ev)
    ∧ (∃ ev, ev ∈ ev0 :: rest ∧ e == start ev + duration ev)
    ∧ (lo == 0 ∨ ∃ ev, ev ∈ ev0 :: rest ∧ lo == degree ev)
    ∧ (hi == lastDegree ∨ ∃ ev, ev ∈ ev0 :: rest ∧ hi == degree ev)
    ∧ lo <= 0 ∧ lastDegree <= hi.
Proof.
  unfold getExtents. cbn [length Nat.eqb fold_left].
  cbn [Math_min Math_max].
  destruct (reduce_min_spec start rest (start ev0))
    as (s & -> & Hs0 & Hs & Hsatt).
  destruct (reduce_max_spec (fun ev => start ev + duration ev) rest
              (start ev0 + duration ev0)) as (e & -> & He0 & He & Heatt).
  destruct (reduce_min_spec degree (ev0 :: rest) 0)
    as (lo & Hlo & Hlo0 & Hlos & Hloatt).
  destruct (reduce_max_spec degree (ev0 :: rest) lastDegree)
    as (hi & Hhi & Hhi0 & His & Hhiatt).
  cbn [fold_left Math_min Math_max] in Hlo, Hhi. rewrite Hlo, Hhi.
  exists s, e, lo, hi. split; [done|]. split; [|split; [|split]].
  - intros ev Hev. split; [|split; [|split]];
      [| | by apply Hlos | by apply His];
      apply elem_of_cons in Hev as [->|Hev]; auto.
  - destruct Hsatt as [Hsatt|(ev & Hev & Hsatt)].
    + exists ev0. split; [apply list_elem_of_here | done].
    + exists ev. split; [by apply list_elem_of_further | done].
  - destruct Heatt as [Heatt|(ev & Hev & Heatt)].
    + exists ev0. split; [apply list_elem_of_here | done].
    + exists ev. split; [by apply list_elem_of_further | done].
  - done.
Qed.

(** X16. For every list of events the extents bound every event: the event
    starts at or after [start], ends (at [start + duration]) at or before
    [end], and its degree lies between [minDegree] and [maxDegree]. *)
Theorem getExtents_bounds (events : list Event) (ev : Event) :
  ev ∈ events →
  le (Extents.start (getExtents events)) (Fin (start ev))
  ∧ le (Fin (start ev + duration ev)) (Extents.end_ (getExtents events))
  ∧ le (Extents.minDegree (getExtents events)) (Fin (degree ev))
  ∧ le (Fin (degree ev)) (Extents.maxDegree (getExtents events)).
Proof.
  intros Hev. destruct events as [|ev0 rest]; [by apply elem_of_nil in Hev|].
  destruct (getExtents_cons ev0 rest) as (s & e & lo & hi & -> & Hall & _).
  simpl. destruct (Hall ev Hev) as (? & ? & ? & ?). done.
Qed.

Lemma getExtents_bounds_witness :
  le (Extents.start (getExtents initialEvents)) (Fin 5)
  ∧ le (Fin (5 + 2)) (Extents.end_ (getExtents initialEvents))
  ∧ le (Extents.minDegree (getExtents initialEvents)) (Fin 5)
  ∧ le (Fin 5) (Extents.maxDegree (getExtents initialEvents)).
Proof.
  apply (getExtents_bounds initialEvents (mkEvent 2 5 5 2)).
  do 2 apply list_elem_of_further. apply list_elem_of_here.
Defined.

(** X17. For a non-empty list the interval is tight and finite: [start] is the
    start of some event, [end] is the end of some event, and [size] is
    [end - start]. *)
Theorem getExtents_tight (events : list Event) :
  events ≠ [] →
  ∃ s e,
    Extents.start (getExtents events) = Fin s
    ∧ Extents.end_ (getExtents events) = Fin e
    ∧ Extents.size (getExtents events) = Fin (e - s)
    ∧ (∃ ev, ev ∈ events ∧ s == start ev)
    ∧ (∃ ev, ev ∈ events ∧ e == start ev + duration ev).
Proof.
  intros Hne. destruct events as [|ev0 rest]; [done|].
  destruct (getExtents_cons ev0 rest)
    as (s & e & lo & hi & -> & _ & Hs & He & _).
  exists s, e. done.
Qed.

Lemma getExtents_tight_witness :
  ∃ s e,
    Extents.start (getExtents initialEvents) = Fin s
    ∧ Extents.end_ (getExtents initialEvents) = Fin e
    ∧ Extents.size (getExtents initialEvents) = Fin (e - s)
    ∧ (∃ ev, ev ∈ initialEvents ∧ s == start ev)
    ∧ (∃ ev, ev ∈ initialEvents ∧ e == start ev + duration ev).
Proof. apply getExtents_tight. discriminate. Defined.

(** X18. The size is at least the duration of every event, so it is not
    negative as soon as one event has a non-negative duration. *)
Theorem getExtents_size_covers_duration (events : list Event)
    (ev : Event) :
  ev ∈ events →
  le (Fin (duration ev)) (Extents.size (getExtents events)).
Proof.
  intros Hev. destruct events as [|ev0 rest]; [by apply elem_of_nil in Hev|].
  destruct (getExtents_cons ev0 rest) as (s & e & lo & hi & -> & Hall & _).
  simpl. destruct (Hall ev Hev) as (Hs & He & _).
  apply (Qle_trans _ ((start ev + duration ev) + - start ev)).
  - apply Qle_lteq. right. ring.
  - apply Qplus_le_compat; [exact He | by apply Qopp_le_compat].
Qed.

Lemma getExtents_size_covers_duration_witness :
  le (Fin 3) (Extents.size (getExtents initialEvents)).
Proof.
  apply (getExtents_size_covers_duration initialEvents (mkEvent 3 6 6 3)).
  do 3 apply list_elem_of_further. apply list_elem_of_here.
Defined.

(** X19. When every event is on the scale (degree between 0 and 6) the degree
    range is exactly the scale: [minDegree = 0] and [maxDegree = 6]. *)
Theorem getExtents_on_scale (events : list Event) :
  (∀ ev, ev ∈ events → 0 <= degree ev ∧ degree ev <= 6) →
  ∃ lo hi,
    Extents.minDegree (getExtents events) = Fin lo ∧ lo == 0
    ∧ Extents.maxDegree (getExtents events) = Fin hi ∧ hi == 6.
Proof.
  intros Hscale. destruct events as [|ev0 rest].
  - exists 0, 6. done.
  - destruct (getExtents_cons ev0 rest)
      as (s & e & lo & hi & -> & _ & _ & _ & Hlo & Hhi & Hlo0 & Hhi0).
    exists lo, hi. simpl. split; [done|]. split; [|split; [done|]].
    + destruct Hlo as [Hlo|(ev & Hev & Hlo)]; [done|].
      apply Qle_antisym; [done|]. rewrite Hlo. by apply Hscale.
    + destruct Hhi as [Hhi|(ev & Hev & Hhi)]; [done|].
      apply Qle_antisym; [|done]. rewrite Hhi. by apply Hscale.
Qed.

Lemma getExtents_on_scale_witness :
  ∃ lo hi,
    Extents.minDegree (getExtents initialEvents) = Fin lo ∧ lo == 0
    ∧ Extents.maxDegree (getExtents initialEvents) = Fin hi ∧ hi == 6.
Proof.
  apply getExtents_on_scale. intros ev Hev.
  repeat (apply elem_of_cons in Hev as [->|Hev]; [by split|]).
  by apply elem_of_nil in Hev.
Defined.

End ExtentsMore.

(** ** The drag-move handler: what it keeps and what it allocates *)

Module DragMore.
Import Geometry Viewport Scale App.

(** *** The maps built from lists of events *)

Lemma entries_elem (σ : gmap loc Event) (ls : list loc) k l :
  (k, l) ∈ entries σ ls
  ↔ l ∈ ls ∧ ∃ ev, σ !! l = Some ev ∧ id ev = k.
Proof.
  unfold entries. rewrite list_elem_of_omap. split.
  - intros (l0 & Hl0 & Heq). destruct (σ !! l0) as [ev|] eqn:Hev; [|done].
    injection Heq as <- <-. eauto.
  - intros (Hl & ev & Hev & <-). exists l. by rewrite Hev.
Qed.

(** X20. [get] on a map built from a list of events returns one of the listed
    events, and one that carries the id asked for; [has] holds exactly for
    the ids of the listed events. *)
Theorem new_Map_entries_lookup (σ : gmap loc Event) (ls : list loc)
    (k : Z) :
  (∀ l, new_Map (entries σ ls) !! k = Some l →
        l ∈ ls ∧ ∃ ev, σ !! l = Some ev ∧ id ev = k)
  ∧ (is_Some (new_Map (entries σ ls) !! k)
     ↔ ∃ l ev, l ∈ ls ∧ σ !! l = Some ev ∧ id ev = k).
Proof.
  assert (Hsound : ∀ l, new_Map (entries σ ls) !! k = Some l →
                        l ∈ ls ∧ ∃ ev, σ !! l = Some ev ∧ id ev = k).
  { intros l Hl. apply entries_elem.
    rewrite DragFacts.new_Map_list_to_map in Hl.
    apply elem_of_list_to_map_2 in Hl.
    by apply list_elem_of_In, in_rev, list_elem_of_In in Hl. }
  split; [exact Hsound|]. split.
  - intros [l Hl]. destruct (Hsound l Hl) as (? & ev & ? & ?). eauto.
  - intros (l & ev & Hl & Hev & Hid).
    destruct (new_Map (entries σ ls) !! k) as [l'|] eqn:Hlk; [by eexists|].
    apply DragFacts.new_Map_lookup_None in Hlk. exfalso. apply Hlk.
    apply list_elem_of_fmap. exists (k, l). split; [done|].
    apply entries_elem. eauto.
Qed.

Lemma fold_insert_later (es : list (Z * loc)) : ∀ (m : gmap Z loc) k,
  k ∉ es.*1 →
  fold_left (fun m e => <[e.1 := e.2]> m) es m !! k = m !! k.
Proof.
  induction es as [|[k0 l0] es IH]; intros m k Hk; [done|].
  simpl in *. apply not_elem_of_cons in Hk as [Hne Hk].
  rewrite IH by done. by apply lookup_insert_ne.
Qed.

(** X21. When listed events carry the same id, the map keeps the one that
    comes last in the list. *)
Theorem new_Map_entries_last_wins (σ : gmap loc Event)
    (ls1 ls2 : list loc) (l : loc) (ev : Event) :
  σ !! l = Some ev →
  id ev ∉ (entries σ ls2).*1 →
  new_Map (entries σ (ls1 ++ l :: ls2)) !! id ev = Some l.
Proof.
  intros Hev Hlater. unfold entries.
  rewrite omap_app. csimpl. rewrite Hev. csimpl.
  fold (entries σ ls1) (entries σ ls2).
  unfold new_Map. rewrite fold_left_app. simpl.
  rewrite fold_insert_later by done. apply lookup_insert_eq.
Qed.

Lemma new_Map_entries_last_wins_witness :
  new_Map
    (entries
       ({[ 1%positive := mkEvent 0 5 4 1; 2%positive := mkEvent 0 2 8 3 ]}
          : gmap loc Event)
       ([1%positive] ++ 2%positive :: []))
    !! 0%Z
  = Some 2%positive.
Proof.
  apply (new_Map_entries_last_wins
           ({[ 1%positive := mkEvent 0 5 4 1;
               2%positive := mkEvent 0 2 8 3 ]} : gmap loc Event)
           [1%positive] [] 2%positive (mkEvent 0 2 8 3)).
  - reflexivity.
  - apply not_elem_of_nil.
Defined.

(** *** The handler *)

Lemma Array_map_length f (events : list loc) : ∀ (σ : gmap loc Event),
  length (Array_map f events σ).1 = length events.
Proof.
  induction events as [|l events IH]; intros σ; [done|].
  simpl. destruct (f l σ) as [l' σ1]. specialize (IH σ1).
  destruct (Array_map f events σ1) as [rest' σ2]. simpl in *. by rewrite IH.
Qed.


Section More.
Variable viewport : ViewportState.
Variable qX qY : QuantizedScale.
Variable draggedEvents : list loc.

Lemma callback_extends_here pos m : ∀ l0 (σ0 : gmap loc Event),
  σ0 ⊆ (onDragMove_callback viewport qX qY pos m l0 σ0).2.
Proof. intros. apply DragFacts.callback_extends. Qed.

(** X22. A move returns as many events as it was given, in the same order, and
    each one -- dragged or not -- keeps its [id] and its [duration]. *)
Theorem onDragMove_keeps_id_duration (pos : DragPos)
    (events : list loc) (σ : gmap loc Event) :
  let r := onDragMove viewport qX qY draggedEvents pos events σ in
  length r.1 = length events
  ∧ ∀ i l ev,
      events !! i = Some l → σ !! l = Some ev →
      ∃ l' ev', r.1 !! i = Some l' ∧ r.2 !! l' = Some ev'
                ∧ id ev' = id ev ∧ duration ev' = duration ev.
Proof.
  intros r. subst r. unfold onDragMove. split; [apply Array_map_length|].
  intros i l ev Hi Hl.
  set (f := onDragMove_callback _ _ _ _ _).
  destruct (DragFacts.Array_map_lookup f (callback_extends_here _ _)
              events σ i l Hi) as (σi & Hsub & Hfin & Hlk).
  pose proof (lookup_weaken _ _ _ _ Hl Hsub) as Hli.
  unfold f, onDragMove_callback in Hlk, Hfin. rewrite Hli in Hlk, Hfin.
  destruct (new_Map (entries σ draggedEvents) !! id ev) as [lb|].
  - destruct (σi !! lb) as [snap|].
    + eexists _, _. split; [exact Hlk|].
      split;
        [eapply lookup_weaken; [apply DragFacts.alloc_lookup | exact Hfin]
        | done].
    + exists l, ev. split; [exact Hlk|]. split; [|done].
      by eapply lookup_weaken.
  - exists l, ev. split; [exact Hlk|]. split; [|done].
    by eapply lookup_weaken.
Qed.

(** X23. The handler never writes to an event object: every object that
    existed before the move is still there afterwards, with the fields it
    had -- the snapshots of the dragged events included. *)
Theorem onDragMove_mutates_nothing (pos : DragPos) (events : list loc)
    (σ : gmap loc Event) (l : loc) (ev : Event) :
  σ !! l = Some ev →
  (onDragMove viewport qX qY draggedEvents pos events σ).2 !! l = Some ev.
Proof.
  intros Hl. eapply lookup_weaken; [exact Hl|].
  apply DragFacts.onDragMove_extends.
Qed.

(** X24. A dragged event is replaced in the list by a new object: the
    reference put in its place did not exist before the move, so it is a
    different object from the one replaced and from every snapshot. *)
Theorem onDragMove_dragged_is_new (pos : DragPos) (events : list loc)
    (σ : gmap loc Event) (i : nat) (l lb : loc) (ev snap : Event) :
  events !! i = Some l →
  σ !! l = Some ev →
  new_Map (entries σ draggedEvents) !! id ev = Some lb →
  σ !! lb = Some snap →
  ∃ l', (onDragMove viewport qX qY draggedEvents pos events σ).1 !! i
        = Some l'
        ∧ σ !! l' = None ∧ l' ≠ l ∧ l' ≠ lb.
Proof.
  intros Hi Hl Hmap Hsnap. unfold onDragMove.
  set (f := onDragMove_callback _ _ _ _ _).
  destruct (DragFacts.Array_map_lookup f (callback_extends_here _ _)
              events σ i l Hi) as (σi & Hsub & Hfin & Hlk).
  pose proof (lookup_weaken _ _ _ _ Hl Hsub) as Hli.
  pose proof (lookup_weaken _ _ _ _ Hsnap Hsub) as Hsi.
  unfold f, onDragMove_callback in Hlk. rewrite Hli, Hmap, Hsi in Hlk.
  unfold alloc in Hlk. simpl in Hlk.
  assert (Hfresh : σ !! fresh (dom σi) = None).
  { destruct (σ !! fresh (dom σi)) as [ev'|] eqn:Hlook; [|done].
    pose proof (lookup_weaken _ _ _ _ Hlook Hsub) as Hin.
    exfalso. apply (is_fresh (dom σi)). apply elem_of_dom. by eexists. }
  exists (fresh (dom σi)). split; [exact Hlk|]. split; [exact Hfresh|].
  split; intros Heq; rewrite Heq in Hfresh; congruence.
Qed.

End More.

Lemma onDragMove_mutates_nothing_witness :
  (Scenes.afterDragX 20).2 !! 1%positive = Some Scenes.theEvent.
Proof.
  apply (onDragMove_mutates_nothing Scenes.unitViewport quantizerX
           quantizerY [1%positive] (Scenes.dragX 20) Scenes.events0
           Scenes.store0 1%positive Scenes.theEvent).
  reflexivity.
Defined.

Lemma onDragMove_dragged_is_new_witness :
  ∃ l', (Scenes.afterDragX 20).1 !! 0%nat = Some l'
        ∧ Scenes.store0 !! l' = None
        ∧ l' ≠ 1%positive ∧ l' ≠ 1%positive.
Proof.
  apply (onDragMove_dragged_is_new Scenes.unitViewport quantizerX
           quantizerY [1%positive] (Scenes.dragX 20) Scenes.events0
           Scenes.store0 0%nat 1%positive 1%positive
           Scenes.theEvent Scenes.theEvent); reflexivity.
Defined.


End DragMore.
